(** * rayleigh.py: catalog accessors and the long-format reshaping

    A shallow embedding of [rayleigh.py] (a client of the rayleighconnect
    API): the catalog accessors of [Client], [Device] and [DevicesList], and
    [SensorList.get_data], which issues one batched request and reshapes the
    nested JSON answer into a long-format series indexed by
    (device, sensor, datetime).

    Python values are modelled as follows.
    - [str] is [string]; a list is a [list]; a dict whose iteration order
      matters (the JSON answer, [to_query]) is an association list in
      insertion order.
    - An exception is a value of [exn]; code that can raise returns a
      [result]; code that also talks to the API runs in the monad [M], which
      threads the log of the requests issued so far.
    - The network is the function [transport], the memoized catalog listings
      are the functions [api_devices] and [api_sensors]: the properties hold
      for every API behind them.
    - The pandas operations used by [get_data] are modelled on the frames
      that [get_data] builds: a wide frame whose first column is [datetime],
      and the long frame [melt] makes of it. The value columns are taken by
      position (all columns after [datetime]); a sensor whose column would
      be labelled like one of the frame's own columns ([datetime], [value])
      is outside this model, and so are the range limits of pandas
      timestamps. *)

From Stdlib Require Import ZArith String Ascii List.
From stdpp Require Import base tactics option list strings sorting pretty.

(** ** Exceptions and results *)

Inductive exn : Type :=
| KeyError (msg : string)
| IndexError (msg : string)
| ValueError (msg : string)
| HTTPError (status : Z) (body : string)
| ConnectionError (msg : string).

Inductive result (A : Type) : Type :=
| Ok (a : A)
| Raise (e : exn).
Arguments Ok {A} a.
Arguments Raise {A} e.

Global Instance result_ret : MRet result := @Ok.
Global Instance result_bind : MBind result := λ A B f m,
  match m with
  | Ok a => f a
  | Raise e => Raise e
  end.

Global Instance result_fmap : FMap result := λ A B f m,
  match m with
  | Ok a => Ok (f a)
  | Raise e => Raise e
  end.

(** [try: m except IndexError: raise KeyError(msg)] *)
Definition except_IndexError {A} (m : result A) (msg : string) : result A :=
  match m with
  | Raise (IndexError _) => Raise (KeyError msg)
  | _ => m
  end.

(** [l[0]] *)
Definition first_item {A} (l : list A) : result A :=
  match l with
  | x :: _ => Ok x
  | [] => Raise (IndexError "list index out of range")
  end.

(** [not ids], for an optional list: [None] and the empty list are falsy. *)
Definition py_not {A} (ids : option (list A)) : bool :=
  match ids with
  | None | Some [] => true
  | Some (_ :: _) => false
  end.

(** [x in ids], used only where [ids] is truthy. *)
Definition py_in (x : string) (ids : option (list string)) : Prop :=
  x ∈ default [] ids.

Global Instance py_in_dec x ids : Decision (py_in x ids).
Proof. unfold py_in. apply _. Defined.

(** ** Clients, devices and sensors *)

Record Client : Type := {
  client_id : string;
  access_token : string;
  app_id : string;
  endpoint : string;
  debug : bool
}.

(** The parameter dictionary the API reports for a device or a sensor; it
    "must at least contain an id key". *)
Record Params : Type := {
  params_id : string;
  params_other : list (string * string)
}.

Record Device : Type := {
  Device_params : Params;
  Device_client : Client
}.

Definition Device_id (d : Device) : string := params_id (Device_params d).

Record Sensor : Type := {
  Sensor_params : Params;
  Sensor_device : Device
}.

Definition Sensor_id (s : Sensor) : string := params_id (Sensor_params s).

(** ** The catalog: [Client.devices], [Device.sensors] and the accessors *)

Section Catalog.

(** What [request("devices")] answered for a client, and what
    [request(f"devices/{id}")[id].values()] answered for a device. Both
    are cached properties: requested once, then fixed. *)
Variable api_devices : Client → list Params.
Variable api_sensors : Device → list Params.

Definition Client_devices (self : Client) : list Device :=
  (λ device, {| Device_params := device; Device_client := self |})
    <$> api_devices self.

Definition Client_get_devices (self : Client)
    (device_ids : option (list string)) : list Device :=
  if py_not device_ids then Client_devices self
  else filter (λ device, py_in (Device_id device) device_ids)
         (Client_devices self).

Definition Client_get_device (self : Client) (device_id : string)
    : result Device :=
  except_IndexError
    (first_item (Client_get_devices self (Some [device_id])))
    "device not found".

Definition Device_sensors (self : Device) : list Sensor :=
  (λ sensor, {| Sensor_params := sensor; Sensor_device := self |})
    <$> api_sensors self.

Definition Device_get_sensors (self : Device)
    (sensor_ids : option (list string)) : list Sensor :=
  if py_not sensor_ids then Device_sensors self
  else filter (λ sensor, py_in (Sensor_id sensor) sensor_ids)
         (Device_sensors self).

Definition Device_get_sensor (self : Device) (sensor_id : string)
    : result Sensor :=
  except_IndexError
    (first_item (Device_get_sensors self (Some [sensor_id])))
    "sensor not found".

(** [DevicesList.get_sensors]: [chain] of the unpacked per-device lists is
    their concatenation. *)
Definition DevicesList_get_sensors (self : list Device)
    (sensor_ids : option (list string)) : list Sensor :=
  if py_not sensor_ids then concat (Device_sensors <$> self)
  else concat ((λ device, Device_get_sensors device sensor_ids) <$> self).

End Catalog.

(** ** Dictionaries in insertion order *)

(** [m[k] = f(m[k])], with [m[k]] starting from [d] when the key is new (a
    [defaultdict], or a plain assignment when [f] is constant): an existing
    key keeps its place, a new key goes last. *)
Fixpoint dict_alter_default {B} (f : B → B) (d : B) (k : string)
    (m : list (string * B)) : list (string * B) :=
  match m with
  | [] => [(k, f d)]
  | (k', v) :: m' =>
      if decide (k' = k) then (k', f v) :: m'
      else (k', v) :: dict_alter_default f d k m'
  end.

(** [sep.join(l)] *)
Definition join (sep : string) (l : list string) : string :=
  String.concat sep l.

(** [range(n)], empty when [n <= 0]. *)
Definition range (n : Z) : list Z := seqZ 0 n.

(** ** Requests *)

Inductive QueryValue : Type :=
| QInt (n : Z)
| QStr (s : string).

Record Request : Type := {
  req_method : string;
  req_url : string;
  req_params : list (string * QueryValue)
}.

(** Code that issues requests: the log of the requests issued so far is
    threaded through, most recent last. *)
Definition M (A : Type) : Type := list Request → result A * list Request.

Global Instance M_ret : MRet M := λ A a log, (Ok a, log).
Global Instance M_bind : MBind M := λ A B f m log,
  match m log with
  | (Ok a, log') => f a log'
  | (Raise e, log') => (Raise e, log')
  end.

Definition lift {A} (r : result A) : M A := λ log, (r, log).

(** ** The time series: [SensorList.get_data] *)

Section TimeSeries.

(** A reported value (a JSON number); it is carried, never computed on. *)
Variable V : Type.

(** One record [[ts_ms, v_1, ..., v_k]] of a sensor's answer. *)
Record SensorRecord : Type := {
  timestamp_ms : Z;
  values : list V
}.

(** [len(record)] *)
Definition len (record : SensorRecord) : nat := S (length (values record)).

(** The JSON answer [{device_id: {sensor_id: [record, ...]}}]. *)
Definition Response : Type :=
  list (string * list (string * list SensorRecord)).

(** *** pandas frames, as [get_data] builds them *)

(** A wide frame: the labels of its columns, and per row the cell of the
    first column ([datetime]) and the cells of the other columns; a cell
    pandas filled in for a short row is [None]. *)
Record DataFrame : Type := {
  columns : list string;
  rows : list (Z * list (option V))
}.

(** [pd.DataFrame(sensor_data, columns=columns)]: the data is as wide as
    its longest row, shorter rows are filled up, and the number of labels
    has to be that width. *)
Definition pd_DataFrame (sensor_data : list SensorRecord)
    (columns : list string) : result DataFrame :=
  let width := max_list (len <$> sensor_data) in
  match sensor_data with
  | [] => Ok {| columns := columns; rows := [] |}
  | _ :: _ =>
      if decide (length columns = width) then
        Ok {| columns := columns;
              rows := (λ record,
                        (timestamp_ms record,
                         resize (width - 1) None (Some <$> values record)))
                      <$> sensor_data |}
      else
        Raise (ValueError (pretty (length columns)
                           +:+ " columns passed, passed data had "
                           +:+ pretty width +:+ " columns"))
  end.

(** A row of the long frame, after [.assign(device=device_id)]. *)
Record Row (T : Type) : Type := {
  datetime : T;
  sensor : string;
  value : option V;
  device : string
}.
Arguments datetime {T} _.
Arguments sensor {T} _.
Arguments value {T} _.
Arguments device {T} _.

(** [frame.melt(id_vars="datetime", var_name="sensor")
         .assign(device=device_id)]:
    column after column, and within a column row after row. *)
Definition melt_assign (frame : DataFrame) (device_id : string)
    : list (Row Z) :=
  '(i, name) ← imap pair (tail (columns frame));
  row ← rows frame;
  [ {| datetime := row.1; sensor := name;
       value := mjoin (row.2 !! i); device := device_id |} ].

(** [pd.concat(objs)] on a generator: the frames are built while the
    generator is consumed, so the first exception raised by one of them
    is the outcome; no frame at all is a [ValueError]. *)
Fixpoint consume {A} (objs : list (result A)) : result (list A) :=
  match objs with
  | [] => Ok []
  | obj :: objs' => x ← obj; xs ← consume objs'; Ok (x :: xs)
  end.

Definition pd_concat {A} (objs : list (result (list A))) : result (list A) :=
  objs ← consume objs;
  match objs with
  | [] => Raise (ValueError "No objects to concatenate")
  | _ :: _ => Ok (concat objs)
  end.

(** [pd.to_datetime(ms, unit="ms")] *)
Record Timestamp : Type := { epoch_ms : Z }.

Definition pd_to_datetime (data : list (Row Z)) : list (Row Timestamp) :=
  (λ row, {| datetime := {| epoch_ms := datetime row |};
             sensor := sensor row; value := value row;
             device := device row |}) <$> data.

(** The index of [.set_index(["device", "sensor", "datetime"])]. *)
Definition Index : Type := string * string * Timestamp.

Definition index_of (row : Row Timestamp) : Index :=
  (device row, sensor row, datetime row).

(** The order of [sort_index]: by device, then sensor, then datetime. *)
Definition index_le (a b : Index) : Prop :=
  strict String.le a.1.1 b.1.1
  ∨ (a.1.1 = b.1.1
     ∧ (strict String.le a.1.2 b.1.2
        ∨ (a.1.2 = b.1.2 ∧ (epoch_ms a.2 ≤ epoch_ms b.2)%Z))).

Global Instance index_le_dec : RelDecision index_le.
Proof. intros a b. unfold index_le, strict. apply _. Defined.

(** [.set_index([...]).sort_index()["value"]]: the series of the values
    under their index, in index order. *)
Definition Series : Type := list (Index * option V).

Definition set_index (data : list (Row Timestamp)) : Series :=
  (λ row, (index_of row, value row)) <$> data.

(** [sort_index] is a stable sort: an entry goes in front of the first entry
    whose index is not smaller, so entries under equal indexes keep the
    order they had. *)
Fixpoint insert_by_index (x : Index * option V) (data : Series) : Series :=
  match data with
  | [] => [x]
  | y :: data' =>
      if decide (index_le x.1 y.1) then x :: data
      else y :: insert_by_index x data'
  end.

Definition sort_index (data : Series) : Series :=
  foldr insert_by_index [] data.

(** *** The reshaping *)

(** The inner generator of [get_data]: the (device, sensor) pairs of the
    answer in dictionary order, those without records left out. *)
Definition loop_through_sensors (data : Response)
    : list (string * string * list SensorRecord) :=
  '(device_id, device_data) ← data;
  '(sensor_id, sensor_data) ← device_data;
  match sensor_data with
  | [] => []
  | _ :: _ => [(device_id, sensor_id, sensor_data)]
  end.

Definition get_column_headers (sensor_id : string)
    (sensor_data : list SensorRecord) : result (list string) :=
  first ← first_item sensor_data;
  let num_data_columns := (Z.of_nat (len first) - 1)%Z in
  if decide (num_data_columns = 1%Z) then Ok ["datetime"; sensor_id]
  else Ok ("datetime" ::
           ((λ i : Z, sensor_id +:+ "_" +:+ pretty i)
              <$> range num_data_columns)).

(** The frame of one (device, sensor) pair: the body of the generator
    expression that [pd.concat] consumes. *)
Definition sensor_frame (device_id sensor_id : string)
    (sensor_data : list SensorRecord) : result (list (Row Z)) :=
  headers ← get_column_headers sensor_id sensor_data;
  frame ← pd_DataFrame sensor_data headers;
  Ok (melt_assign frame device_id).

Definition no_data : exn :=
  KeyError "no data for this device/sensor/datetime combination".

(** What [get_data] does with the answer of the API. *)
Definition reshape (data : Response) : result Series :=
  let frames :=
    (λ '(device_id, sensor_id, sensor_data),
       sensor_frame device_id sensor_id sensor_data)
      <$> loop_through_sensors data in
  data ← match pd_concat frames with
         | Raise (ValueError e) =>
             if decide (e = "No objects to concatenate") then Raise no_data
             else Raise (ValueError e)
         | outcome => outcome
         end;
  let data := pd_to_datetime data in
  Ok (sort_index (set_index data)).

(** *** The request *)

(** [requests.request(method, url, params=params)], then
    [raise_for_status()] and [json()]: the answer of the API, or the
    exception the transport raises. *)
Variable transport : Request → result Response.

(** [Client.request(path, **params)]; the request is logged, then sent.
    (The optional [print] of the URL under [debug] is left out.) *)
Definition Client_request (self : Client) (path : string)
    (params : list (string * QueryValue)) : M Response :=
  let request_url :=
    endpoint self +:+ "/" +:+ client_id self +:+ "/" +:+ path in
  let params :=
    dict_alter_default (λ _, QStr (app_id self)) (QStr (app_id self))
      "app_id" params in
  let params :=
    dict_alter_default (λ _, QStr (access_token self))
      (QStr (access_token self)) "access_token" params in
  let request :=
    {| req_method := "get"; req_url := request_url; req_params := params |} in
  λ log, (transport request, log ++ [request]).

(** A date as the caller gives it, and
    [int(pd.to_datetime(date).timestamp() * 1000)], which raises on what is
    not a date. *)
Variable Date : Type.
Variable to_milliseconds : Date → result Z.

(** The keys and lists of [to_query]: the sensor ids under the id of their
    device, devices in order of first appearance. *)
Definition to_query (self : list Sensor) : list (string * list string) :=
  foldl (λ to_query sensor,
           dict_alter_default (λ ids, ids ++ [Sensor_id sensor]) []
             (Device_id (Sensor_device sensor)) to_query)
        [] self.

Definition query (self : list Sensor) : string :=
  join "," ((λ '(device_id, sensor_ids),
               device_id +:+ ":(" +:+ join "," sensor_ids +:+ ")")
            <$> to_query self).

(** [SensorList.get_data]. (Its first statement joins the sensor ids into a
    string that is never used.) *)
Definition SensorList_get_data (self : list Sensor) (from_date to_date : Date)
    : M Series :=
  from_date ← lift (to_milliseconds from_date);
  to_date ← lift (to_milliseconds to_date);
  client ← lift (Device_client ∘ Sensor_device <$> first_item self);
  data ← Client_request client ("data/" +:+ query self +:+ ")")
           [("from", QInt from_date); ("to", QInt to_date)];
  lift (reshape data).

(** The request that [get_data] sends for a non-empty collection. *)
Definition data_request (self : list Sensor) (client : Client)
    (from_date to_date : Z) : Request :=
  {| req_method := "get";
     req_url := endpoint client +:+ "/" +:+ client_id client +:+ "/"
                +:+ ("data/" +:+ query self +:+ ")");
     req_params := [("from", QInt from_date); ("to", QInt to_date);
                    ("app_id", QStr (app_id client));
                    ("access_token", QStr (access_token client))] |}.

(** *** Quantities of the answer that the properties speak of *)

(** The labels of the value columns of a sensor's frame: the headers
    without [datetime]. *)
Definition value_headers (sensor_id : string)
    (sensor_data : list SensorRecord) : list string :=
  match get_column_headers sensor_id sensor_data with
  | Ok headers => tail headers
  | Raise _ => []
  end.

(** The timestamps the answer reports under one sensor column of one
    device: those of the records of every sensor of that device that has a
    value column of that name. *)
Definition column_timestamps (data : Response) (device_id column : string)
    : list Z :=
  '(device_id', sensor_id, sensor_data) ← loop_through_sensors data;
  if decide (device_id' = device_id) then
    name ← value_headers sensor_id sensor_data;
    if decide (name = column) then timestamp_ms <$> sensor_data else []
  else [].

(** The wide frame of a sensor's records, when no record is longer than the
    first. *)
Definition wide_frame (sensor_id : string)
    (sensor_data : list SensorRecord) : DataFrame :=
  let width := max_list (len <$> sensor_data) in
  {| columns := "datetime" :: value_headers sensor_id sensor_data;
     rows := (λ record,
               (timestamp_ms record,
                resize (width - 1) None (Some <$> values record)))
             <$> sensor_data |}.

(** The long rows a sensor with records of one arity stands for: one row per
    value column and record, column after column. *)
Definition long_rows (device_id sensor_id : string)
    (sensor_data : list SensorRecord) : list (Row Z) :=
  '(i, name) ← imap pair (value_headers sensor_id sensor_data);
  record ← sensor_data;
  [ {| datetime := timestamp_ms record; sensor := name;
       value := values record !! i; device := device_id |} ].

(** The device, sensor column and timestamp of the rows of a sensor's frame:
    every value column with every record's timestamp. *)
Definition frame_keys (device_id sensor_id : string)
    (sensor_data : list SensorRecord) : list (string * string * Z) :=
  name ← value_headers sensor_id sensor_data;
  record ← sensor_data;
  [(device_id, name, timestamp_ms record)].

(** [Sensor.get_data] *)
Definition Sensor_get_data (self : Sensor) (from_date to_date : Date)
    : M Series :=
  SensorList_get_data [self] from_date to_date.

End TimeSeries.

Arguments timestamp_ms {V} _.
Arguments values {V} _.
Arguments len {V} _.
Arguments columns {V} _.
Arguments rows {V} _.
Arguments datetime {V T} _.
Arguments sensor {V T} _.
Arguments value {V T} _.
Arguments device {V T} _.
Arguments pd_DataFrame {V} _ _.
Arguments melt_assign {V} _ _.
Arguments pd_to_datetime {V} _.
Arguments index_of {V} _.
Arguments set_index {V} _.
Arguments insert_by_index {V} _ _.
Arguments sort_index {V} _.
Arguments loop_through_sensors {V} _.
Arguments get_column_headers {V} _ _.
Arguments sensor_frame {V} _ _ _.
Arguments reshape {V} _.
Arguments value_headers {V} _ _.
Arguments column_timestamps {V} _ _ _.
Arguments wide_frame {V} _ _.
Arguments long_rows {V} _ _ _.
Arguments frame_keys {V} _ _ _.

(** ** The rest of the client: any request, the catalog requests *)

(** [m[k]] on a dictionary in insertion order: the value under the key, if
    the key is there. *)
Fixpoint dict_get {B} (k : string) (m : list (string * B)) : option B :=
  match m with
  | [] => None
  | (k', v) :: m' => if decide (k' = k) then Some v else dict_get k m'
  end.

Section CatalogRequests.

(** The parsed JSON of an answer, of whatever shape. *)
Variable J : Type.
Variable transport : Request → result J.

(** [Client.request(path, **params)] for every path: [get_data] above uses
    it on the [data/...] path. *)
Definition Client_request_json (self : Client) (path : string)
    (params : list (string * QueryValue)) : M J :=
  let request_url :=
    endpoint self +:+ "/" +:+ client_id self +:+ "/" +:+ path in
  let params :=
    dict_alter_default (λ _, QStr (app_id self)) (QStr (app_id self))
      "app_id" params in
  let params :=
    dict_alter_default (λ _, QStr (access_token self))
      (QStr (access_token self)) "access_token" params in
  let request :=
    {| req_method := "get"; req_url := request_url; req_params := params |} in
  λ log, (transport request, log ++ [request]).

End CatalogRequests.

Arguments Client_request_json {J} _ _ _ _.

(** The body of the property [Client.devices]: the answer to [devices] is
    the list of the devices' parameter dictionaries. *)
Definition Client_devices_request
    (transport : Request → result (list Params)) (self : Client)
    : M (list Device) :=
  devices ← Client_request_json transport self "devices" [];
  mret ((λ device, {| Device_params := device; Device_client := self |})
          <$> devices).

(** The body of the property [Device.sensors]: the answer to
    [devices/{id}] is a dictionary from device id to a dictionary from
    sensor id to the sensor's parameter dictionary. A missing key is a
    [KeyError] carrying the key. *)
Definition Device_sensors_request
    (transport : Request → result (list (string * list (string * Params))))
    (self : Device) : M (list Sensor) :=
  sensors ← Client_request_json transport (Device_client self)
              ("devices/" +:+ Device_id self) [];
  sensors ← lift (match dict_get (Device_id self) sensors with
                  | Some device_sensors => Ok device_sensors.*2
                  | None => Raise (KeyError (Device_id self))
                  end);
  mret ((λ sensor, {| Sensor_params := sensor; Sensor_device := self |})
          <$> sensors).

(** [functools.cached_property]: an access returns the value kept in the
    instance when there is one; otherwise it runs the body and keeps the
    value the body returns; a body that raises leaves nothing behind. The
    cell is the instance's slot for the property. *)
Definition cached_property {A} (body : M A) (cell : option A)
    : list Request → result A * option A * list Request :=
  λ log,
    match cell with
    | Some kept => (Ok kept, cell, log)
    | None =>
        match body log with
        | (Ok value, log') => (Ok value, Some value, log')
        | (Raise e, log') => (Raise e, None, log')
        end
    end.

(** No record of the sensor is longer than its first record: what
    [pd.DataFrame] needs to accept the headers made from the first record. *)
Definition fits_first_record {V} (sensor_data : list (SensorRecord V))
    : Prop :=
  match sensor_data with
  | [] => True
  | first :: rest => Forall (λ record, len record ≤ len first) rest
  end.

(** ** A small account, for the examples *)

Definition example_client : Client :=
  {| client_id := "user@example.org"; access_token := "secret";
     app_id := "uob"; endpoint := "https://api.uxeon.com/consumer/v1";
     debug := false |}.

Definition example_sensor (device_id sensor_id : string) : Sensor :=
  {| Sensor_params := {| params_id := sensor_id; params_other := [] |};
     Sensor_device :=
       {| Device_params := {| params_id := device_id; params_other := [] |};
          Device_client := example_client |} |}.

(** Device [A] with sensors [s1] and [s2], device [B] with sensor [s3]. *)
Definition example_sensors : list Sensor :=
  [example_sensor "A" "s1"; example_sensor "A" "s2"; example_sensor "B" "s3"].

(** Two records of a three-phase sensor, and a sensor without records. *)
Definition example_records : list (SensorRecord Z) :=
  [ {| timestamp_ms := 2000; values := [4; 5; 6]%Z |};
    {| timestamp_ms := 1000; values := [1; 2; 3]%Z |} ].

Definition example_answer : Response Z :=
  [("A", [("s1", example_records); ("s2", [])])].

Definition example_transport (request : Request) : result (Response Z) :=
  Ok example_answer.


(** A catalog: devices [A] and [B]; [A] has sensors [s1] and [s2], every
    other device has sensor [s3]. *)
Definition example_api_devices (c : Client) : list Params :=
  [ {| params_id := "A"; params_other := [] |};
    {| params_id := "B"; params_other := [] |} ].

Definition example_api_sensors (d : Device) : list Params :=
  if decide (Device_id d = "A")
  then [ {| params_id := "s1"; params_other := [] |};
         {| params_id := "s2"; params_other := [] |} ]
  else [ {| params_id := "s3"; params_other := [] |} ].

(** The sensor [s2] of device [A], held by another account. *)
Definition example_foreign_sensor : Sensor :=
  {| Sensor_params := {| params_id := "s2"; params_other := [("unit", "V")] |};
     Sensor_device :=
       {| Device_params := {| params_id := "A"; params_other := [] |};
          Device_client :=
            {| client_id := "other@example.org"; access_token := "other";
               app_id := "uob"; endpoint := "https://example.org/v1";
               debug := true |} |} |}.


Definition example_bare_answer : Response Z :=
  [("A", [("s1", [ {| timestamp_ms := 2; values := [] |};
                   {| timestamp_ms := 1; values := [] |} ])])].

Definition example_answer_two : Response Z :=
  [("A", [("s1", example_records);
          ("s2", [ {| timestamp_ms := 1000; values := [7%Z] |} ])])].

Definition example_answer_two_swapped : Response Z :=
  [("A", [("s2", [ {| timestamp_ms := 1000; values := [7%Z] |} ]);
          ("s1", example_records)])].

(** * Properties *)

(** ** The catalog accessors *)

Section CatalogProperties.

Variable api_devices : Client → list Params.
Variable api_sensors : Device → list Params.

Local Abbreviation devices := (Client_devices api_devices).
Local Abbreviation get_devices := (Client_get_devices api_devices).
Local Abbreviation get_device := (Client_get_device api_devices).
Local Abbreviation sensors := (Device_sensors api_sensors).
Local Abbreviation get_sensors := (Device_get_sensors api_sensors).
Local Abbreviation get_sensor := (Device_get_sensor api_sensors).

Lemma py_in_Some x ids : py_in x (Some ids) ↔ x ∈ ids.
Proof. done. Qed.

Lemma get_devices_truthy c id ids :
  get_devices c (Some (id :: ids))
  = filter (λ d, Device_id d ∈ id :: ids) (devices c).
Proof. done. Qed.

Lemma get_sensors_truthy d id ids :
  get_sensors d (Some (id :: ids))
  = filter (λ s, Sensor_id s ∈ id :: ids) (sensors d).
Proof. done. Qed.

Lemma filter_none {A} (P : A → Prop) `{!∀ x, Decision (P x)} (l : list A) :
  Forall (λ x, ¬ P x) l → filter P l = [].
Proof.
  induction 1 as [|x l Hx _ IH]; [done|]. by rewrite filter_cons_False.
Qed.

(** The first item of a filtered list, with [IndexError] turned into the
    [KeyError] of the single-item accessors. *)
Lemma first_item_filter {A} (P : A → Prop) `{!∀ x, Decision (P x)}
    (l : list A) (msg : string) :
  match except_IndexError (first_item (filter P l)) msg with
  | Ok x => head (filter P l) = Some x ∧ x ∈ l ∧ P x
  | Raise e => e = KeyError msg ∧ Forall (λ x, ¬ P x) l
  end.
Proof.
  destruct (filter P l) as [|x l'] eqn:Hf; simpl.
  - split; [done|]. apply Forall_forall. intros x Hx HP.
    by apply (filter_nil_not_elem_of P l x).
  - assert (x ∈ filter P l) as [HP Hx]%list_elem_of_filter
      by (rewrite Hf; left).
    done.
Qed.

(** C5. The batch accessors [get_devices] and [get_sensors] are total: they
    return a list and raise nothing. With a non-empty list of ids the
    result is the catalog filtered on "the id is one of the ids": it is a
    sublist of the catalog (catalog order, whatever the order of the ids)
    and holds exactly the catalog entries whose id is requested, so ids that
    are not in the catalog are passed over. With no ids ([None] or the empty
    list) the result is the whole catalog. *)
Theorem batch_accessors_filter_catalog (c : Client) (d : Device)
    (id : string) (ids : list string) :
  (get_devices c (Some (id :: ids))
     = filter (λ x, Device_id x ∈ id :: ids) (devices c)
   ∧ get_devices c (Some (id :: ids)) `sublist_of` devices c
   ∧ (∀ x, x ∈ get_devices c (Some (id :: ids))
            ↔ x ∈ devices c ∧ Device_id x ∈ id :: ids)
   ∧ get_devices c None = devices c
   ∧ get_devices c (Some []) = devices c)
  ∧ (get_sensors d (Some (id :: ids))
       = filter (λ x, Sensor_id x ∈ id :: ids) (sensors d)
     ∧ get_sensors d (Some (id :: ids)) `sublist_of` sensors d
     ∧ (∀ x, x ∈ get_sensors d (Some (id :: ids))
              ↔ x ∈ sensors d ∧ Sensor_id x ∈ id :: ids)
     ∧ get_sensors d None = sensors d
     ∧ get_sensors d (Some []) = sensors d).
Proof.
  rewrite get_devices_truthy, get_sensors_truthy.
  split_and!; try done; try apply sublist_filter.
  - intros x. rewrite list_elem_of_filter. tauto.
  - intros x. rewrite list_elem_of_filter. tauto.
Qed.

(** C6. [get_device] returns the first catalog entry with the requested id
    (one item, which is in the catalog and has that id) when there is one,
    and raises [KeyError("device not found")] when the catalog has no entry
    with that id; [get_sensor] does the same on the sensors of a device with
    [KeyError("sensor not found")]. No other outcome exists. On such an
    absent id the batch accessor returns the empty list: the batch
    accessors return lists and raise nothing. *)
Theorem single_accessors_item_or_not_found (c : Client) (d : Device)
    (id : string) :
  match get_device c id with
  | Ok x =>
      head (filter (λ y, Device_id y = id) (devices c)) = Some x
      ∧ x ∈ devices c ∧ Device_id x = id
  | Raise e =>
      e = KeyError "device not found" ∧ (id ∉ Device_id <$> devices c)
      ∧ get_devices c (Some [id]) = []
  end
  ∧ match get_sensor d id with
    | Ok x =>
        head (filter (λ y, Sensor_id y = id) (sensors d)) = Some x
        ∧ x ∈ sensors d ∧ Sensor_id x = id
    | Raise e =>
        e = KeyError "sensor not found" ∧ (id ∉ Sensor_id <$> sensors d)
        ∧ get_sensors d (Some [id]) = []
    end.
Proof.
  assert (∀ {A} (f : A → string) (l : list A),
    filter (λ y, py_in (f y) (Some [id])) l = filter (λ y, f y = id) l)
    as Hsingle.
  { intros A f l. apply list_filter_iff. intros y.
    rewrite py_in_Some. apply list_elem_of_singleton. }
  split.
  - unfold Client_get_device, Client_get_devices. simpl.
    rewrite (Hsingle _ Device_id).
    pose proof (first_item_filter (λ y, Device_id y = id) (devices c)
                  "device not found") as H.
    destruct (except_IndexError _ _) as [x|e]; [done|].
    destruct H as [-> H]. split_and!; [done| |].
    + intros (y & Hy & Hin)%list_elem_of_fmap.
      rewrite Forall_forall in H. by apply (H y).
    + by apply filter_none.
  - unfold Device_get_sensor, Device_get_sensors. simpl.
    rewrite (Hsingle _ Sensor_id).
    pose proof (first_item_filter (λ y, Sensor_id y = id) (sensors d)
                  "sensor not found") as H.
    destruct (except_IndexError _ _) as [x|e]; [done|].
    destruct H as [-> H]. split_and!; [done| |].
    + intros (y & Hy & Hin)%list_elem_of_fmap.
      rewrite Forall_forall in H. by apply (H y).
    + by apply filter_none.
Qed.

Lemma filter_concat {A} (P : A → Prop) `{!∀ x, Decision (P x)}
    (ls : list (list A)) :
  filter P (concat ls) = concat (filter P <$> ls).
Proof.
  induction ls as [|l ls IH]; [done|]. simpl.
  by rewrite filter_app, IH.
Qed.

(** C9. [DevicesList.get_sensors] is the concatenation, in device order, of
    what [get_sensors] returns on each device, for every [sensor_ids]; with
    no ids this is the concatenation of the devices' full sensor lists. So
    the sensors with a given id in the result are, device after device,
    those of each device: an id that several devices have comes back once
    per device. *)
Theorem DevicesList_get_sensors_concat (devs : list Device)
    (sensor_ids : option (list string)) (sid : string) :
  DevicesList_get_sensors api_sensors devs sensor_ids
    = concat ((λ d, get_sensors d sensor_ids) <$> devs)
  ∧ DevicesList_get_sensors api_sensors devs None = concat (sensors <$> devs)
  ∧ DevicesList_get_sensors api_sensors devs (Some [])
    = concat (sensors <$> devs)
  ∧ filter (λ s, Sensor_id s = sid)
      (DevicesList_get_sensors api_sensors devs sensor_ids)
    = concat ((λ d, filter (λ s, Sensor_id s = sid)
                      (get_sensors d sensor_ids)) <$> devs).
Proof.
  assert (DevicesList_get_sensors api_sensors devs sensor_ids
          = concat ((λ d, get_sensors d sensor_ids) <$> devs)) as Heq.
  { unfold DevicesList_get_sensors, Device_get_sensors.
    by destruct (py_not sensor_ids). }
  repeat split; try done.
  rewrite Heq, filter_concat. f_equal.
  by rewrite <- list_fmap_compose.
Qed.

End CatalogProperties.

(** ** The time series *)

Section TimeSeriesProperties.

Variable V : Type.
Variable transport : Request → result (Response V).
Variable Date : Type.
Variable to_milliseconds : Date → result Z.

Local Abbreviation get_data :=
  (SensorList_get_data V transport Date to_milliseconds).

(** *** The request of [get_data] *)

Lemma get_data_nonempty (sensor : Sensor) (rest : list Sensor)
    (from_date to_date : Date) (from_ms to_ms : Z) (log : list Request) :
  to_milliseconds from_date = Ok from_ms →
  to_milliseconds to_date = Ok to_ms →
  let self := sensor :: rest in
  let sent :=
    data_request self (Device_client (Sensor_device sensor)) from_ms to_ms in
  get_data self from_date to_date log
  = (transport sent ≫= reshape, log ++ [sent]).
Proof.
  intros Hfrom Hto. unfold SensorList_get_data, mbind, M_bind, lift.
  rewrite Hfrom, Hto. simpl. unfold data_request. simpl.
  by destruct (transport _).
Qed.

(** C10. [Sensor.get_data] on a sensor is [SensorList.get_data] on the
    collection holding just that sensor: the same outcome (series or
    exception) and the same requests, from every log. *)
Theorem Sensor_get_data_singleton (sensor : Sensor) (from_date to_date : Date)
    (log : list Request) :
  Sensor_get_data V transport Date to_milliseconds sensor from_date to_date log
  = get_data [sensor] from_date to_date log.
Proof. reflexivity. Qed.

(** C7, as the code has it. On an empty collection [get_data] sends no
    request and raises: the exception of the date conversion when one of
    the two dates does not convert, and otherwise the [IndexError] of taking
    the first sensor of an empty list. There is no check of the argument. *)
Theorem get_data_empty_collection (from_date to_date : Date)
    (log : list Request) :
  get_data [] from_date to_date log
  = (match to_milliseconds from_date, to_milliseconds to_date with
     | Raise e, _ => Raise e
     | Ok _, Raise e => Raise e
     | Ok _, Ok _ => Raise (IndexError "list index out of range")
     end, log).
Proof.
  unfold SensorList_get_data, mbind, M_bind, lift.
  destruct (to_milliseconds from_date); [|done].
  by destruct (to_milliseconds to_date).
Qed.

(** *** The column headers *)

Lemma get_column_headers_cons (sensor_id : string) (first : SensorRecord V)
    (rest : list (SensorRecord V)) :
  get_column_headers sensor_id (first :: rest)
  = Ok ("datetime" :: value_headers sensor_id (first :: rest)).
Proof.
  unfold value_headers, get_column_headers. simpl.
  by destruct (decide _).
Qed.

Lemma value_headers_cons (sensor_id : string) (first : SensorRecord V)
    (rest : list (SensorRecord V)) :
  value_headers sensor_id (first :: rest)
  = if decide (length (values first) = 1) then [sensor_id]
    else (λ i : Z, sensor_id +:+ "_" +:+ pretty i)
           <$> seqZ 0 (Z.of_nat (length (values first))).
Proof.
  unfold value_headers, get_column_headers, range, len. simpl.
  replace (Z.of_nat (S (length (values first))) - 1)%Z
    with (Z.of_nat (length (values first))) by lia.
  destruct (decide (Z.of_nat _ = 1%Z)) as [H|H];
    destruct (decide (length _ = 1)) as [H'|H']; try done; lia.
Qed.

Lemma length_value_headers (sensor_id : string) (first : SensorRecord V)
    (rest : list (SensorRecord V)) :
  length (value_headers sensor_id (first :: rest))
  = length (values first).
Proof.
  rewrite value_headers_cons. destruct (decide _) as [->|]; [done|].
  rewrite length_fmap, length_seqZ. lia.
Qed.


(** C2. The headers of a sensor's frame are computed from its first record
    alone (the other records do not matter): [datetime], then one label per
    value slot of that record, [k] of them for [k = len(first) - 1] values.
    For [k = 1] the label is the sensor id itself; otherwise the label of
    slot [i] is the sensor id, an underscore and [i], for [i] from [0] to
    [k - 1] in this order. *)
Theorem column_headers_from_first_record (sensor_id : string)
    (first : SensorRecord V) (rest rest' : list (SensorRecord V)) :
  let k := length (values first) in
  get_column_headers sensor_id (first :: rest)
    = get_column_headers sensor_id (first :: rest')
  ∧ ∃ names,
      get_column_headers sensor_id (first :: rest)
        = Ok ("datetime" :: names)
      ∧ length names = k
      ∧ names = (if decide (k = 1) then [sensor_id]
                 else (λ i : Z, sensor_id +:+ "_" +:+ pretty i)
                        <$> seqZ 0 (Z.of_nat k))
      ∧ ∀ i : nat,
          names !! i
          = if decide (k = 1) then [sensor_id] !! i
            else if decide (i < k)
                 then Some (sensor_id +:+ "_" +:+ pretty (Z.of_nat i))
                 else None.
Proof.
  intros k. split; [done|].
  exists (value_headers sensor_id (first :: rest)).
  split_and!.
  - apply get_column_headers_cons.
  - apply length_value_headers.
  - apply value_headers_cons.
  - intros i. rewrite value_headers_cons. fold k.
    destruct (decide (k = 1)); [done|].
    rewrite list_lookup_fmap. destruct (decide (i < k)).
    + by rewrite lookup_seqZ_lt by lia.
    + by rewrite lookup_seqZ_ge by lia.
Qed.

(** *** The frame of one sensor *)

Lemma string_length_app (s1 s2 : string) :
  String.length (s1 +:+ s2) = String.length s1 + String.length s2.
Proof. induction s1 as [|c s1 IH]; [done|]. simpl. by rewrite <- IH. Qed.

(** The message of a frame that cannot be built is not the message of an
    empty concatenation. *)
Lemma columns_passed_message (n w : nat) :
  pretty n +:+ " columns passed, passed data had " +:+ pretty w +:+ " columns"
  ≠ "No objects to concatenate".
Proof.
  intros H%(f_equal String.length).
  rewrite !string_length_app in H. simpl in H. lia.
Qed.

Lemma sensor_frame_cons (device_id sensor_id : string)
    (first : SensorRecord V) (rest : list (SensorRecord V)) :
  let sensor_data := first :: rest in
  let width := max_list (len <$> sensor_data) in
  sensor_frame device_id sensor_id sensor_data
  = if decide (len first = width)
    then Ok (melt_assign (wide_frame sensor_id sensor_data) device_id)
    else Raise (ValueError (pretty (len first)
                            +:+ " columns passed, passed data had "
                            +:+ pretty width +:+ " columns")).
Proof.
  intros sensor_data width. subst sensor_data. unfold sensor_frame.
  rewrite get_column_headers_cons. unfold mbind at 1, result_bind.
  unfold pd_DataFrame. cbv beta iota zeta. fold width.
  cbn [length]. rewrite length_value_headers.
  change (S (length (values first))) with (len first).
  by destruct (decide _).
Qed.

(** What a sensor's frame can raise. *)
Lemma sensor_frame_raises (device_id sensor_id : string)
    (sensor_data : list (SensorRecord V)) (e : exn) :
  sensor_data ≠ [] →
  sensor_frame device_id sensor_id sensor_data = Raise e →
  ∃ msg, e = ValueError msg ∧ msg ≠ "No objects to concatenate".
Proof.
  destruct sensor_data as [|first rest]; [done|]. intros _.
  rewrite sensor_frame_cons. destruct (decide _); [done|].
  intros [= <-]. eexists. split; [done|]. apply columns_passed_message.
Qed.

Lemma bind_singleton_length {A B} (f : A → B) (l : list A) :
  length (l ≫= λ x, [f x]) = length l.
Proof. induction l as [|x l IH]; [done|]. rewrite bind_cons. simpl. by rewrite IH. Qed.

(** Lists built column after column, the columns numbered from [k 0]. *)
Lemma length_imap_bind {A B} (g : nat → A → list B) (n : nat) (l : list A)
    (k : nat → nat) :
  (∀ i x, length (g i x) = n) →
  length (imap (λ i x, (k i, x)) l ≫= λ '(i, x), g i x) = length l * n.
Proof.
  revert k. induction l as [|x l IH]; intros k H; [done|].
  rewrite imap_cons, bind_cons, length_app. simpl. rewrite H. f_equal.
  by apply (IH (k ∘ S)).
Qed.

Lemma fmap_imap_bind {A B C} (h : B → C) (g : nat → A → list B)
    (g' : A → list C) (l : list A) (k : nat → nat) :
  (∀ i x, h <$> g i x = g' x) →
  h <$> (imap (λ i x, (k i, x)) l ≫= λ '(i, x), g i x) = l ≫= g'.
Proof.
  revert k. induction l as [|x l IH]; intros k H; [done|].
  rewrite imap_cons, !bind_cons, fmap_app, H. f_equal.
  by apply (IH (k ∘ S)).
Qed.

Lemma fmap_bind_singleton {A B C} (h : B → C) (f : A → B) (l : list A) :
  h <$> (l ≫= λ x, [f x]) = l ≫= λ x, [h (f x)].
Proof.
  induction l as [|x l IH]; [done|]. rewrite !bind_cons, fmap_app, IH. done.
Qed.

Lemma melt_assign_length (frame : DataFrame V) (device_id : string) :
  length (melt_assign frame device_id)
  = length (tail (columns frame)) * length (rows frame).
Proof.
  unfold melt_assign.
  apply (length_imap_bind
           (λ i name, rows frame ≫= λ row,
              [ {| datetime := row.1; sensor := name;
                   value := mjoin (row.2 !! i); device := device_id |} ])
           _ _ id).
  intros i name. apply bind_singleton_length.
Qed.






(** *** The order of the index and [sort_index] *)

Lemma string_lt_or_eq (s1 s2 : string) :
  strict String.le s1 s2 ∨ s1 = s2 ∨ strict String.le s2 s1.
Proof.
  destruct (decide (s1 = s2)) as [|Hne]; [by right; left|].
  destruct (total String.le s1 s2) as [H|H].
  - left. split; [done|]. intros H'. by apply Hne, (anti_symm String.le).
  - right; right. split; [done|].
    intros H'. by apply Hne, (anti_symm String.le).
Qed.

Global Instance index_le_total : Total index_le.
Proof.
  intros [[d1 s1] t1] [[d2 s2] t2]. unfold index_le. simpl.
  destruct (string_lt_or_eq d1 d2) as [?|[->|?]].
  { left. by left. }
  2: { right. by left. }
  destruct (string_lt_or_eq s1 s2) as [?|[->|?]].
  { left. right. split; [done|]. by left. }
  2: { right. right. split; [done|]. by left. }
  destruct (Z.le_ge_cases (epoch_ms t1) (epoch_ms t2)).
  - left. right. split; [done|]. by right.
  - right. right. split; [done|]. by right.
Qed.

Global Instance index_le_trans : Transitive index_le.
Proof.
  assert (Transitive (strict String.le)) as Hlt by apply _.
  intros [[d1 s1] t1] [[d2 s2] t2] [[d3 s3] t3]. unfold index_le. simpl.
  intros [H12|[-> H12]] [H23|[-> H23]].
  - left. by etrans.
  - by left.
  - by left.
  - right. split; [done|].
    destruct H12 as [H12|[-> H12]], H23 as [H23|[-> H23]].
    + left. by etrans.
    + by left.
    + by left.
    + right. split; [done|]. lia.
Qed.

Lemma insert_by_index_Permutation (x : Index * option V) (data : Series V) :
  insert_by_index x data ≡ₚ x :: data.
Proof.
  induction data as [|y data IH]; [done|]. simpl.
  destruct (decide _); [done|]. rewrite IH. apply Permutation_swap.
Qed.

Lemma sort_index_Permutation (data : Series V) : sort_index data ≡ₚ data.
Proof.
  induction data as [|x data IH]; [done|]. simpl.
  rewrite insert_by_index_Permutation. by f_equiv.
Qed.

Lemma insert_by_index_Sorted (x : Index * option V) (data : Series V) :
  Sorted (λ a b, index_le a.1 b.1) data →
  Sorted (λ a b, index_le a.1 b.1) (insert_by_index x data).
Proof.
  induction 1 as [|y data Hdata IH Hhd]; simpl.
  - by repeat constructor.
  - destruct (decide (index_le x.1 y.1)) as [Hxy|Hxy].
    + constructor; [by constructor|by constructor].
    + constructor; [done|].
      destruct (total index_le x.1 y.1) as [|Hyx]; [done|].
      destruct Hhd as [|z data' Hyz]; simpl; [by constructor|].
      destruct (decide _); by constructor.
Qed.

Lemma sort_index_Sorted (data : Series V) :
  Sorted (λ a b, index_le a.1 b.1) (sort_index data).
Proof.
  induction data as [|x data IH]; [constructor|].
  by apply insert_by_index_Sorted.
Qed.


(** *** Walking the answer and consuming the frames *)

Lemma loop_through_sensors_elem_of (data : Response V) (device_id : string)
    (sensor_id : string) (sensor_data : list (SensorRecord V)) :
  (device_id, sensor_id, sensor_data) ∈ loop_through_sensors data
  ↔ sensor_data ≠ []
    ∧ ∃ device_data, (device_id, device_data) ∈ data
                     ∧ (sensor_id, sensor_data) ∈ device_data.
Proof.
  unfold loop_through_sensors. rewrite list_elem_of_bind. split.
  - intros ([d dd] & Hin & Hd). rewrite list_elem_of_bind in Hin.
    destruct Hin as ([s sd] & Hin & Hs).
    destruct sd as [|r sd]; [by apply not_elem_of_nil in Hin|].
    apply list_elem_of_singleton in Hin as [= -> -> ->].
    split; [done|]. by exists dd.
  - intros [Hne (dd & Hd & Hs)]. exists (device_id, dd). split; [|done].
    rewrite list_elem_of_bind. exists (sensor_id, sensor_data).
    split; [|done]. destruct sensor_data; [done|]. by left.
Qed.

Lemma loop_through_sensors_nil (data : Response V) :
  loop_through_sensors data = []
  ↔ Forall (λ device, Forall (λ sensor, sensor.2 = []) device.2) data.
Proof.
  split.
  - intros Hnil. apply Forall_forall. intros [d dd] Hd.
    apply Forall_forall. intros [s sd] Hs. simpl in *.
    destruct sd as [|r sd]; [done|].
    assert ((d, s, r :: sd) ∈ loop_through_sensors data) as Hin.
    { apply loop_through_sensors_elem_of. split; [done|]. by exists dd. }
    rewrite Hnil in Hin. by apply not_elem_of_nil in Hin.
  - intros Hall. destruct (loop_through_sensors data) as [|[[d s] sd] l] eqn:E;
      [done|].
    assert ((d, s, sd) ∈ loop_through_sensors data) as Hin
      by (rewrite E; left).
    apply loop_through_sensors_elem_of in Hin as [Hne (dd & Hd & Hs)].
    rewrite Forall_forall in Hall. specialize (Hall _ Hd).
    rewrite Forall_forall in Hall. by specialize (Hall _ Hs).
Qed.

Lemma consume_Raise {A} (objs : list (result A)) (e : exn) :
  consume objs = Raise e → Raise e ∈ objs.
Proof.
  induction objs as [|[x|e'] objs IH]; simpl; [done| |].
  - destruct (consume objs); [done|]. intros [= <-]. right. by apply IH.
  - intros [= <-]. left.
Qed.

Lemma consume_Ok_fmap {A} (objs : list (result A)) (xs : list A) :
  consume objs = Ok xs ↔ objs = Ok <$> xs.
Proof.
  revert xs. induction objs as [|[x|e] objs IH]; intros xs; simpl.
  - split; [by intros [= <-]|]. by destruct xs.
  - destruct (consume objs) as [xs'|e]; simpl.
    + split.
      * intros [= <-]. rewrite fmap_cons. f_equal. by apply IH.
      * destruct xs as [|x' xs]; [done|]. rewrite fmap_cons.
        intros [= -> Hobjs]. apply IH in Hobjs. by simplify_eq.
    + split; [done|]. destruct xs as [|x' xs]; [done|]. rewrite fmap_cons.
      intros [= -> Hobjs]. by apply IH in Hobjs.
  - split; [done|]. by destruct xs.
Qed.

Lemma consume_Ok {A B} (f : A → result B) (l : list A) (xs : list B) :
  consume (f <$> l) = Ok xs ↔ Forall2 (λ a x, f a = Ok x) l xs.
Proof.
  rewrite consume_Ok_fmap, list_eq_Forall2. apply Forall2_fmap.
Qed.

(** The three outcomes of the reshaping: the no-data error when no sensor
    has records; the [ValueError] of the first frame that cannot be built;
    the sorted series of all the frames. *)
Lemma reshape_outcome (data : Response V) :
  (loop_through_sensors data = [] ∧ reshape data = Raise no_data)
  ∨ (∃ msg, msg ≠ "No objects to concatenate"
            ∧ reshape data = Raise (ValueError msg))
  ∨ (loop_through_sensors data ≠ []
     ∧ ∃ frames,
         Forall2 (λ '(device_id, sensor_id, sensor_data) rows,
                    sensor_frame device_id sensor_id sensor_data = Ok rows)
                 (loop_through_sensors data) frames
         ∧ reshape data
           = Ok (sort_index (set_index (pd_to_datetime (concat frames))))).
Proof.
  unfold reshape, pd_concat.
  set (frame := λ '(device_id, sensor_id, sensor_data),
         sensor_frame (V:=V) device_id sensor_id sensor_data).
  destruct (consume (frame <$> loop_through_sensors data))
    as [frames|e] eqn:E.
  - apply consume_Ok in E.
    destruct frames as [|rows frames].
    + left. inversion E as [Hnil|]. split; reflexivity.
    + right; right. split.
      { intros Hnil. rewrite Hnil in E. inversion E. }
      exists (rows :: frames). split; [|done].
      eapply Forall2_impl; [exact E|]. by intros [[??]?] ?.
  - right; left. apply consume_Raise in E.
    apply list_elem_of_fmap in E as ([[d s] sd] & He & Hin).
    apply loop_through_sensors_elem_of in Hin as [Hne _].
    symmetry in He. apply sensor_frame_raises in He as (msg & -> & Hmsg);
      [|done].
    exists msg. split; [done|]. simpl. by rewrite decide_False.
Qed.

Lemma reshape_no_data_iff (data : Response V) :
  reshape data = Raise no_data
  ↔ Forall (λ device, Forall (λ sensor, sensor.2 = []) device.2) data.
Proof.
  rewrite <- loop_through_sensors_nil.
  destruct (reshape_outcome data)
    as [[Hnil Hr]|[(msg & Hmsg & Hr)|(Hne & frames & _ & Hr)]].
  - by rewrite Hr.
  - split; [by rewrite Hr|]. intros Hnil.
    unfold reshape in Hr. rewrite Hnil in Hr. done.
  - split; [by rewrite Hr|done].
Qed.

(** A sensor without records can be taken out of the answer. *)
Lemma reshape_without_empty_sensor (before after : Response V)
    (device_id sensor_id : string)
    (sensors_before sensors_after : list (string * list (SensorRecord V))) :
  reshape (before
           ++ [(device_id,
                sensors_before ++ [(sensor_id, [])] ++ sensors_after)]
           ++ after)
  = reshape (before ++ [(device_id, sensors_before ++ sensors_after)]
             ++ after).
Proof.
  unfold reshape, loop_through_sensors.
  by rewrite !bind_app, !bind_cons, !bind_app, !bind_cons.
Qed.

(** C3. Let the API answer the request of [get_data] with [data]. Then
    [get_data] raises the no-data error exactly when every (device, sensor)
    pair of [data] has an empty record list. A sensor with an empty record
    list is passed over: taking it out of an answer, wherever it stands,
    changes nothing in the outcome, so it adds no row and no error of its
    own. *)
Theorem no_data_iff_every_sensor_empty (sensor : Sensor) (rest : list Sensor)
    (from_date to_date : Date) (from_ms to_ms : Z) (log : list Request)
    (data : Response V) :
  to_milliseconds from_date = Ok from_ms →
  to_milliseconds to_date = Ok to_ms →
  transport (data_request (sensor :: rest)
               (Device_client (Sensor_device sensor)) from_ms to_ms)
    = Ok data →
  (get_data (sensor :: rest) from_date to_date log).1 = reshape data
  ∧ ((get_data (sensor :: rest) from_date to_date log).1 = Raise no_data
     ↔ Forall (λ device, Forall (λ sensor, sensor.2 = []) device.2) data)
  ∧ ∀ (before after : Response V) (device_id sensor_id : string)
      (sensors_before sensors_after : list (string * list (SensorRecord V))),
      reshape (before
               ++ [(device_id,
                    sensors_before ++ [(sensor_id, [])] ++ sensors_after)]
               ++ after)
      = reshape (before ++ [(device_id, sensors_before ++ sensors_after)]
                 ++ after).
Proof.
  intros Hfrom Hto Hdata.
  rewrite (get_data_nonempty _ _ _ _ _ _ _ Hfrom Hto), Hdata. simpl.
  split_and!; [done|apply reshape_no_data_iff|].
  apply reshape_without_empty_sensor.
Qed.

(** *** The index of the series *)

Lemma fmap_bind {A B C} (h : B → C) (f : A → list B) (l : list A) :
  h <$> (l ≫= f) = l ≫= λ x, h <$> f x.
Proof.
  induction l as [|x l IH]; [done|]. by rewrite !bind_cons, fmap_app, IH.
Qed.

Lemma filter_bind {A B} (P : B → Prop) `{!∀ x, Decision (P x)}
    (f : A → list B) (l : list A) :
  filter P (l ≫= f) = l ≫= λ x, filter P (f x).
Proof.
  induction l as [|x l IH]; [done|]. by rewrite !bind_cons, filter_app, IH.
Qed.

(** A list of keyed items has no duplicates when, key by key, the items
    under that key have none. *)
Lemma NoDup_by_key {K T} `{EqDecision K} (l : list (K * T)) :
  (∀ k, NoDup (snd <$> filter (λ x, x.1 = k) l)) → NoDup l.
Proof.
  induction l as [|[k t] l IH]; intros H; [constructor|].
  constructor.
  - intros Hin. specialize (H k). rewrite filter_cons_True in H by done.
    rewrite fmap_cons in H. apply NoDup_cons in H as [Hnotin _].
    apply Hnotin. apply list_elem_of_fmap. exists (k, t). split; [done|].
    by apply list_elem_of_filter.
  - apply IH. intros k'. specialize (H k'). rewrite filter_cons in H.
    destruct (decide _); [|done]. rewrite fmap_cons in H.
    by apply NoDup_cons in H as [_ ?].
Qed.

Lemma frame_keys_under (device_id sensor_id : string)
    (sensor_data : list (SensorRecord V)) (d c : string) :
  snd <$> filter (λ x, x.1 = (d, c))
            (frame_keys device_id sensor_id sensor_data)
  = if decide (device_id = d) then
      name ← value_headers sensor_id sensor_data;
      if decide (name = c) then timestamp_ms <$> sensor_data else []
    else [].
Proof.
  unfold frame_keys. rewrite filter_bind, fmap_bind.
  assert (∀ name,
    snd <$> filter (λ x : string * string * Z, x.1 = (d, c))
              (sensor_data ≫= λ record,
                 [(device_id, name, timestamp_ms record)])
    = if decide (device_id = d) then
        if decide (name = c) then timestamp_ms <$> sensor_data else []
      else []) as Hname.
  { intros name. induction sensor_data as [|r rs IH].
    - by repeat destruct (decide _).
    - rewrite bind_cons, filter_app, fmap_app, IH. simpl.
      rewrite filter_cons, filter_nil. simpl.
      destruct (decide (device_id = d)) as [->|Hd].
      + destruct (decide (name = c)) as [->|Hc].
        * by rewrite decide_True.
        * rewrite decide_False; [done|]. by intros [=].
      + rewrite decide_False; [done|]. by intros [=]. }
  destruct (decide (device_id = d)) as [Hd|Hd].
  - apply list_bind_ext; [|done]. intros name. by rewrite Hname.
  - induction (value_headers sensor_id sensor_data) as [|name names IH];
      [done|].
    by rewrite bind_cons, IH, Hname.
Qed.

Lemma NoDup_frame_keys (data : Response V) :
  (∀ device_id column, NoDup (column_timestamps data device_id column)) →
  NoDup (loop_through_sensors data
         ≫= λ '(device_id, sensor_id, sensor_data),
              frame_keys device_id sensor_id sensor_data).
Proof.
  intros H. apply NoDup_by_key. intros [d c].
  rewrite filter_bind, fmap_bind. specialize (H d c).
  unfold column_timestamps in H.
  erewrite list_bind_ext; [exact H| |done].
  intros [[device_id sensor_id] sensor_data]. apply frame_keys_under.
Qed.

Lemma melt_assign_keys (device_id sensor_id : string)
    (sensor_data : list (SensorRecord V)) :
  (λ row : Row V Z, (device row, sensor row, datetime row))
    <$> melt_assign (wide_frame sensor_id sensor_data) device_id
  = frame_keys device_id sensor_id sensor_data.
Proof.
  unfold melt_assign, frame_keys, wide_frame. cbn [columns rows tail].
  set (width := max_list (len <$> sensor_data)).
  apply (fmap_imap_bind _
           (λ i name,
              ((λ record, (timestamp_ms record,
                           resize (width - 1) None (Some <$> values record)))
                 <$> sensor_data)
              ≫= λ row,
                [ {| datetime := row.1; sensor := name;
                     value := mjoin (row.2 !! i); device := device_id |} ])
           _ _ id).
  intros i name. rewrite list_fmap_bind.
  apply (fmap_bind_singleton
           (λ row : Row V Z, (device row, sensor row, datetime row))
           (λ record,
              {| datetime := timestamp_ms record; sensor := name;
                 value := mjoin (resize (width - 1) None
                                   (Some <$> values record) !! i);
                 device := device_id |})).
Qed.

Lemma sensor_frame_keys (device_id sensor_id : string)
    (sensor_data : list (SensorRecord V)) (rows : list (Row V Z)) :
  sensor_data ≠ [] →
  sensor_frame device_id sensor_id sensor_data = Ok rows →
  (λ row : Row V Z, (device row, sensor row, datetime row)) <$> rows
  = frame_keys device_id sensor_id sensor_data.
Proof.
  destruct sensor_data as [|first rest]; [done|]. intros _.
  rewrite sensor_frame_cons. destruct (decide _); [|done].
  intros [= <-]. apply melt_assign_keys.
Qed.

Lemma frames_keys (entries : list (string * string * list (SensorRecord V)))
    (frames : list (list (Row V Z))) :
  Forall (λ entry, entry.2 ≠ []) entries →
  Forall2 (λ '(device_id, sensor_id, sensor_data) rows,
             sensor_frame device_id sensor_id sensor_data = Ok rows)
          entries frames →
  (λ row : Row V Z, (device row, sensor row, datetime row)) <$> concat frames
  = entries ≫= λ '(device_id, sensor_id, sensor_data),
                 frame_keys device_id sensor_id sensor_data.
Proof.
  intros Hne H. induction H as [|[[d s] sd] rows entries frames Hrows _ IH];
    [done|].
  apply Forall_cons in Hne as [Hsd Hne].
  cbn [concat]. rewrite fmap_app, bind_cons, IH by done. f_equal.
  by apply sensor_frame_keys.
Qed.

Lemma index_of_series (data : list (Row V Z)) :
  fst <$> set_index (pd_to_datetime data)
  = (λ key : string * string * Z, (key.1, {| epoch_ms := key.2 |}))
      <$> ((λ row : Row V Z, (device row, sensor row, datetime row))
             <$> data).
Proof.
  unfold set_index, pd_to_datetime. rewrite <- !list_fmap_compose.
  by apply list_fmap_ext.
Qed.

(** *** The series *)


Lemma reshape_index_NoDup (data : Response V) (series : Series V) :
  reshape data = Ok series →
  (∀ device_id column, NoDup (column_timestamps data device_id column)) →
  NoDup (fst <$> series).
Proof.
  intros Hseries Hunique.
  destruct (reshape_outcome data)
    as [[_ Hr]|[(msg & _ & Hr)|(_ & frames & Hframes & Hr)]];
    rewrite Hr in Hseries; [done..|].
  injection Hseries as <-.
  rewrite sort_index_Permutation, index_of_series.
  apply NoDup_fmap_2.
  { intros [[d1 c1] t1] [[d2 c2] t2] [= -> -> ->]. done. }
  rewrite (frames_keys (loop_through_sensors data)); [|
    | done].
  - by apply NoDup_frame_keys.
  - apply Forall_forall. intros [[d s] sd] Hin.
    by apply loop_through_sensors_elem_of in Hin as [? _].
Qed.


Lemma reshape_frames (data : Response V) (frames : list (list (Row V Z))) :
  loop_through_sensors data ≠ [] →
  Forall2 (λ '(device_id, sensor_id, sensor_data) rows,
             sensor_frame device_id sensor_id sensor_data = Ok rows)
          (loop_through_sensors data) frames →
  reshape data
  = Ok (sort_index (set_index (pd_to_datetime (concat frames)))).
Proof.
  intros Hne Hframes. unfold reshape, pd_concat.
  set (frame := λ '(device_id, sensor_id, sensor_data),
         sensor_frame (V:=V) device_id sensor_id sensor_data).
  assert (consume (frame <$> loop_through_sensors data) = Ok frames) as ->.
  { apply consume_Ok. eapply Forall2_impl; [exact Hframes|].
    by intros [[??]?] ?. }
  destruct frames as [|rows frames]; [|done].
  by inversion Hframes.
Qed.



End TimeSeriesProperties.

(** ** The properties on the example account *)

(** The spec's first example: one record of a single-valued sensor gives one
    entry under the sensor's own id. *)
Example reshape_single_value :
  reshape [("A@x", [("e1", [ {| timestamp_ms := 1000; values := [5%Z] |} ])])]
  = Ok [("A@x", "e1", {| epoch_ms := 1000 |}, Some 5%Z)].
Proof. reflexivity. Qed.

(** The spec's other examples: a three-phase record gives three entries, and
    an answer whose only sensor has no records gives the no-data error. *)
Example reshape_three_phase :
  reshape [("A@x", [("p1", [ {| timestamp_ms := 1000;
                                values := [1; 2; 3]%Z |} ])])]
  = Ok [("A@x", "p1_0", {| epoch_ms := 1000 |}, Some 1%Z);
        ("A@x", "p1_1", {| epoch_ms := 1000 |}, Some 2%Z);
        ("A@x", "p1_2", {| epoch_ms := 1000 |}, Some 3%Z)].
Proof. reflexivity. Qed.

Example reshape_only_empty_sensor :
  reshape (V:=Z) [("A@x", [("e1", [])])]
  = Raise (KeyError "no data for this device/sensor/datetime combination").
Proof. reflexivity. Qed.

(** Records of different lengths: a shorter later record is filled up, a
    longer later record makes the frame, and so the call, fail. *)
Example reshape_shorter_later_record :
  reshape [("A", [("e1", [ {| timestamp_ms := 2; values := [1; 2]%Z |};
                           {| timestamp_ms := 1; values := [3%Z] |} ])])]
  = Ok [("A", "e1_0", {| epoch_ms := 1 |}, Some 3%Z);
        ("A", "e1_0", {| epoch_ms := 2 |}, Some 1%Z);
        ("A", "e1_1", {| epoch_ms := 1 |}, None);
        ("A", "e1_1", {| epoch_ms := 2 |}, Some 2%Z)].
Proof. reflexivity. Qed.

Example reshape_longer_later_record :
  reshape [("A", [("e1", [ {| timestamp_ms := 2; values := [1%Z] |};
                           {| timestamp_ms := 1; values := [3; 4]%Z |} ])])]
  = Raise (ValueError "2 columns passed, passed data had 3 columns").
Proof. reflexivity. Qed.

(** Two sensors of one device can share a column label, here [e1_0]; the
    timestamps under that label are then those of both sensors. *)
Example column_shared_by_two_sensors :
  reshape [("A", [("e1", [ {| timestamp_ms := 1; values := [10; 20]%Z |} ]);
                  ("e1_0", [ {| timestamp_ms := 1; values := [30%Z] |} ])])]
  = Ok [("A", "e1_0", {| epoch_ms := 1 |}, Some 10%Z);
        ("A", "e1_0", {| epoch_ms := 1 |}, Some 30%Z);
        ("A", "e1_1", {| epoch_ms := 1 |}, Some 20%Z)]
  ∧ column_timestamps
      [("A", [("e1", [ {| timestamp_ms := 1; values := [10; 20]%Z |} ]);
              ("e1_0", [ {| timestamp_ms := 1; values := [30%Z] |} ])])]
      "A" "e1_0"
    = [1; 1]%Z.
Proof. split; reflexivity. Qed.

(** C8, at the spec's own example. For device [A] with sensors [s1], [s2]
    and device [B] with sensor [s3], the one request that [get_data] sends
    has the path [data/A:(s1,s2),B:(s3))]: the grouped query is followed by
    one more closing parenthesis. *)
Theorem get_data_request_path_example :
  (SensorList_get_data Z example_transport Z Ok example_sensors 0%Z 1%Z []).2
  = [ {| req_method := "get";
         req_url := "https://api.uxeon.com/consumer/v1/user@example.org/"
                    +:+ "data/A:(s1,s2),B:(s3))";
         req_params := [("from", QInt 0); ("to", QInt 1);
                        ("app_id", QStr "uob");
                        ("access_token", QStr "secret")] |} ].
Proof. reflexivity. Qed.

(** C7, as the claim states it, fails: on the empty collection the call
    raises [IndexError], which is none of the [ValueError]s. *)
Lemma get_data_empty_collection_raises_IndexError :
  SensorList_get_data Z example_transport Z Ok [] 0%Z 1%Z []
  = (Raise (IndexError "list index out of range"), [])
  ∧ ∀ msg,
      (SensorList_get_data Z example_transport Z Ok [] 0%Z 1%Z []).1
      ≠ Raise (ValueError msg).
Proof. split; [reflexivity|]. intros msg. discriminate. Qed.




Lemma no_data_iff_every_sensor_empty_witness :
  (SensorList_get_data Z example_transport Z Ok example_sensors 0%Z 1%Z []).1
  = reshape example_answer
  ∧ ((SensorList_get_data Z example_transport Z Ok example_sensors
        0%Z 1%Z []).1 = Raise no_data
     ↔ Forall (λ device : string * list (string * list (SensorRecord Z)),
                 Forall (λ sensor, sensor.2 = []) device.2)
              example_answer)
  ∧ ∀ (before after : Response Z) (device_id sensor_id : string)
      (sensors_before sensors_after : list (string * list (SensorRecord Z))),
      reshape (before
               ++ [(device_id,
                    sensors_before ++ [(sensor_id, [])] ++ sensors_after)]
               ++ after)
      = reshape (before ++ [(device_id, sensors_before ++ sensors_after)]
                 ++ after).
Proof.
  apply (no_data_iff_every_sensor_empty Z example_transport Z Ok
           (example_sensor "A" "s1")
           [example_sensor "A" "s2"; example_sensor "B" "s3"]
           0%Z 1%Z 0%Z 1%Z [] example_answer); reflexivity.
Defined.

(** * Further properties of the client *)

(** ** Dictionaries *)

Lemma dict_get_alter_default {B} (f : B → B) (d : B) (k : string)
    (m : list (string * B)) :
  dict_get k (dict_alter_default f d k m)
  = Some (f (default d (dict_get k m))).
Proof.
  induction m as [|[k' v] m IH]; cbn [dict_get dict_alter_default fmap list_fmap fst].
  - by rewrite decide_True.
  - destruct (decide (k' = k)) as [->|Hk]; cbn [dict_get fmap list_fmap fst].
    + by rewrite decide_True.
    + by rewrite decide_False.
Qed.

Lemma dict_get_alter_default_ne {B} (f : B → B) (d : B) (k k' : string)
    (m : list (string * B)) :
  k ≠ k' → dict_get k' (dict_alter_default f d k m) = dict_get k' m.
Proof.
  intros Hne. induction m as [|[k0 v] m IH];
    cbn [dict_get dict_alter_default].
  - by rewrite decide_False.
  - destruct (decide (k0 = k)) as [->|Hk]; cbn [dict_get].
    + by rewrite !decide_False.
    + by rewrite IH.
Qed.

Lemma dict_alter_default_keys {B} (f : B → B) (d : B) (k : string)
    (m : list (string * B)) :
  (dict_alter_default f d k m).*1
  = if decide (k ∈ m.*1) then m.*1 else m.*1 ++ [k].
Proof.
  induction m as [|[k' v] m IH]; cbn [dict_get dict_alter_default fmap list_fmap fst].
  - rewrite decide_False; [done|]. apply not_elem_of_nil.
  - destruct (decide (k' = k)) as [->|Hk]; cbn [dict_get fmap list_fmap fst].
    + rewrite decide_True; [done|]. left.
    + rewrite IH. destruct (decide (k ∈ m.*1)) as [Hin|Hin].
      * rewrite decide_True; [done|]. by right.
      * rewrite decide_False; [done|].
        intros [?|?]%elem_of_cons; congruence.
Qed.

Lemma dict_alter_default_keys_NoDup {B} (f : B → B) (d : B) (k : string)
    (m : list (string * B)) :
  NoDup m.*1 → NoDup (dict_alter_default f d k m).*1.
Proof.
  intros Hm. rewrite dict_alter_default_keys.
  destruct (decide _) as [|Hk]; [done|].
  apply NoDup_app. split_and!; [done| |apply NoDup_singleton].
  intros x Hx ->%list_elem_of_singleton. done.
Qed.

Lemma dict_get_None {B} (k : string) (m : list (string * B)) :
  dict_get k m = None ↔ k ∉ m.*1.
Proof.
  induction m as [|[k' v] m IH]; cbn [dict_get dict_alter_default fmap list_fmap fst].
  - split; [intros _; apply not_elem_of_nil|done].
  - rewrite not_elem_of_cons. destruct (decide (k' = k)) as [->|Hk].
    + split; [done|]. by intros [? _].
    + rewrite IH. split; [|by intros [_ ?]]. intros ?; split; congruence.
Qed.

(** ** [Client.request] *)

(** The request of the time series is this request. *)
Lemma Client_request_is_json (V : Type)
    (transport : Request → result (Response V)) (self : Client)
    (path : string) (params : list (string * QueryValue)) :
  Client_request V transport self path params
  = Client_request_json transport self path params.
Proof. reflexivity. Qed.


(** ** The grouping of the query: [to_query] *)

Lemma to_query_snoc (self : list Sensor) (sensor : Sensor) :
  to_query (self ++ [sensor])
  = dict_alter_default (λ ids, ids ++ [Sensor_id sensor]) []
      (Device_id (Sensor_device sensor)) (to_query self).
Proof. unfold to_query. by rewrite foldl_snoc. Qed.

Lemma to_query_NoDup (self : list Sensor) : NoDup (to_query self).*1.
Proof.
  induction self as [|sensor self IH] using rev_ind; [constructor|].
  rewrite to_query_snoc. by apply dict_alter_default_keys_NoDup.
Qed.

Lemma to_query_lookup (self : list Sensor) (device_id : string) :
  dict_get device_id (to_query self)
  = match filter (λ s, Device_id (Sensor_device s) = device_id) self with
    | [] => None
    | (_ :: _) as sensors => Some (Sensor_id <$> sensors)
    end.
Proof.
  induction self as [|sensor self IH] using rev_ind; [done|].
  rewrite to_query_snoc, filter_app, filter_cons, filter_nil.
  destruct (decide (Device_id (Sensor_device sensor) = device_id))
    as [<-|Hne].
  - rewrite dict_get_alter_default, IH.
    destruct (filter _ self) as [|s ss]; [done|].
    simpl. do 2 f_equal. symmetry. apply (fmap_app Sensor_id ss [sensor]).
  - rewrite dict_get_alter_default_ne by done. by rewrite app_nil_r.
Qed.

Lemma to_query_keys (self : list Sensor) (device_id : string) :
  device_id ∈ (to_query self).*1
  ↔ ∃ sensor, sensor ∈ self ∧ Device_id (Sensor_device sensor) = device_id.
Proof.
  destruct (decide (device_id ∈ (to_query self).*1)) as [Hin|Hnotin].
  - split; [intros _|done].
    destruct (dict_get device_id (to_query self)) as [ids|] eqn:Hget.
    2: { by apply dict_get_None in Hget. }
    rewrite to_query_lookup in Hget.
    destruct (filter _ self) as [|s ss] eqn:Hf; [done|].
    assert (s ∈ filter (λ s, Device_id (Sensor_device s) = device_id) self)
      as [? ?]%list_elem_of_filter by (rewrite Hf; left).
    by exists s.
  - split; [done|]. intros (s & Hs & Hd). exfalso.
    apply dict_get_None in Hnotin. rewrite to_query_lookup in Hnotin.
    destruct (filter _ self) as [|s' ss] eqn:Hf; [|done].
    exact (filter_nil_not_elem_of _ _ s Hf Hd Hs).
Qed.

(** X2. [to_query] groups the sensor ids by device id. Its keys are
    pairwise distinct and are exactly the device ids of the sensors; under
    a device id stand the ids of the sensors of that device, in the order
    of the collection; and the keys are in order of first appearance:
    one more sensor of a device that is there leaves the keys as they are,
    a sensor of a new device puts its device last. *)
Theorem to_query_groups_by_device (self : list Sensor) :
  NoDup (to_query self).*1
  ∧ (∀ device_id,
       device_id ∈ (to_query self).*1
       ↔ ∃ sensor, sensor ∈ self
                   ∧ Device_id (Sensor_device sensor) = device_id)
  ∧ (∀ device_id,
       dict_get device_id (to_query self)
       = match filter (λ s, Device_id (Sensor_device s) = device_id) self
         with
         | [] => None
         | (_ :: _) as sensors => Some (Sensor_id <$> sensors)
         end)
  ∧ (∀ sensor,
       (to_query (self ++ [sensor])).*1
       = if decide (Device_id (Sensor_device sensor) ∈ (to_query self).*1)
         then (to_query self).*1
         else (to_query self).*1 ++ [Device_id (Sensor_device sensor)]).
Proof.
  split_and!.
  - apply to_query_NoDup.
  - apply to_query_keys.
  - apply to_query_lookup.
  - intros sensor. rewrite to_query_snoc. apply dict_alter_default_keys.
Qed.

Lemma dict_alter_default_append_values (x : string) (k : string)
    (m : list (string * list string)) :
  concat (dict_alter_default (λ ids, ids ++ [x]) [] k m).*2
  ≡ₚ concat m.*2 ++ [x].
Proof.
  induction m as [|[k' v] m IH]; cbn [dict_alter_default]; [done|].
  destruct (decide (k' = k)); cbn [fmap list_fmap snd concat].
  - rewrite <- !(assoc (++)). f_equiv. apply Permutation_app_comm.
  - fold (fmap (M:=list) (@snd string (list string))).
    rewrite IH. by rewrite (assoc (++)).
Qed.

(** X3. The grouping loses and adds nothing: the sensor ids under all the
    keys of [to_query] are, up to order, the ids of the sensors of the
    collection, each as often as it occurs there; and no key stands over an
    empty list, so the query has no empty group. *)
Theorem to_query_keeps_every_sensor (self : list Sensor) :
  concat (to_query self).*2 ≡ₚ Sensor_id <$> self
  ∧ Forall (λ group, group.2 ≠ []) (to_query self)
  ∧ sum_list (length <$> (to_query self).*2) = length self.
Proof.
  assert (concat (to_query self).*2 ≡ₚ Sensor_id <$> self) as Hperm.
  { induction self as [|sensor self IH] using rev_ind; [done|].
    rewrite to_query_snoc, dict_alter_default_append_values, IH.
    by rewrite fmap_app. }
  split_and!; [done| |].
  - induction self as [|sensor self IH] using rev_ind; [constructor|].
    rewrite to_query_snoc.
    assert (concat (to_query self).*2 ≡ₚ Sensor_id <$> self) as Hself.
    { clear. induction self as [|sensor self IH] using rev_ind; [done|].
      rewrite to_query_snoc, dict_alter_default_append_values, IH.
      by rewrite fmap_app. }
    specialize (IH Hself). clear Hperm Hself.
    induction (to_query self) as [|[k v] m IHm];
      cbn [dict_alter_default].
    + by repeat constructor.
    + apply Forall_cons in IH as [Hv Hm].
      destruct (decide _); constructor; try done; [|by apply IHm].
      simpl. by destruct v.
  - rewrite <- length_concat. rewrite Hperm. by rewrite length_fmap.
Qed.

Lemma dict_alter_default_absent {B} (f : B → B) (d : B) (k : string)
    (m : list (string * B)) :
  k ∉ m.*1 → dict_alter_default f d k m = m ++ [(k, f d)].
Proof.
  induction m as [|[k' v] m IH]; cbn [dict_alter_default]; [done|].
  rewrite fmap_cons, not_elem_of_cons. intros [Hk Hm].
  rewrite decide_False by done. by rewrite IH.
Qed.

Lemma dict_alter_default_last {B} (f : B → B) (d : B) (k : string)
    (m : list (string * B)) (v : B) :
  k ∉ m.*1 → dict_alter_default f d k (m ++ [(k, v)]) = m ++ [(k, f v)].
Proof.
  induction m as [|[k' v'] m IH]; cbn [dict_alter_default app].
  - intros _. by rewrite decide_True.
  - rewrite fmap_cons, not_elem_of_cons. intros [Hk Hm].
    rewrite decide_False by done. by rewrite IH.
Qed.

(** Sensors of one device that is not yet a key make one more group. *)
Lemma to_query_app_group (self sensors : list Sensor) (device_id : string) :
  Forall (λ s, Device_id (Sensor_device s) = device_id) sensors →
  device_id ∉ (to_query self).*1 →
  to_query (self ++ sensors)
  = to_query self ++ match sensors with
                     | [] => []
                     | _ :: _ => [(device_id, Sensor_id <$> sensors)]
                     end.
Proof.
  intros Hsensors Hnew.
  induction sensors as [|sensor sensors IH] using rev_ind.
  { by rewrite !app_nil_r. }
  apply Forall_app in Hsensors as [Hsensors [Hsensor _]%Forall_cons].
  rewrite (assoc (++)), to_query_snoc, IH, Hsensor by done.
  destruct sensors as [|s ss].
  - rewrite app_nil_r. exact (dict_alter_default_absent _ _ _ _ Hnew).
  - rewrite dict_alter_default_last by done. by rewrite fmap_app.
Qed.

(** ** From the catalog to the query *)

Section CatalogToQuery.

Variable api_sensors : Device → list Params.

Lemma Device_get_sensors_elem_of (device : Device)
    (sensor_ids : option (list string)) (sensor : Sensor) :
  sensor ∈ Device_get_sensors api_sensors device sensor_ids →
  Sensor_device sensor = device
  ∧ sensor ∈ Device_sensors api_sensors device
  ∧ (py_not sensor_ids = false → py_in (Sensor_id sensor) sensor_ids).
Proof.
  assert (sensor ∈ Device_sensors api_sensors device →
          Sensor_device sensor = device) as Hdevice.
  { intros (p & -> & _)%list_elem_of_fmap. done. }
  unfold Device_get_sensors. destruct (py_not sensor_ids).
  - intros Hin. split_and!; [by apply Hdevice|done..].
  - intros [Hid Hin]%list_elem_of_filter. split_and!; [by apply Hdevice|done..].
Qed.

Lemma DevicesList_get_sensors_snoc (devices : list Device) (device : Device)
    (sensor_ids : option (list string)) :
  DevicesList_get_sensors api_sensors (devices ++ [device]) sensor_ids
  = DevicesList_get_sensors api_sensors devices sensor_ids
    ++ Device_get_sensors api_sensors device sensor_ids.
Proof.
  unfold DevicesList_get_sensors, Device_get_sensors.
  destruct (py_not sensor_ids);
    by rewrite fmap_app, concat_app, fmap_cons, fmap_nil, concat_cons,
         concat_nil, app_nil_r.
Qed.

Lemma DevicesList_get_sensors_elem_of (devices : list Device)
    (sensor_ids : option (list string)) (sensor : Sensor) :
  sensor ∈ DevicesList_get_sensors api_sensors devices sensor_ids
  ↔ ∃ device, device ∈ devices
              ∧ sensor ∈ Device_get_sensors api_sensors device sensor_ids.
Proof.
  induction devices as [|device devices IH] using rev_ind.
  { split; [|by intros (? & ?%not_elem_of_nil & _)].
    unfold DevicesList_get_sensors. destruct (py_not _);
      by intros ?%not_elem_of_nil. }
  rewrite DevicesList_get_sensors_snoc, elem_of_app, IH. split.
  - intros [(d & Hd & Hs)|Hs].
    + exists d. split; [|done]. apply elem_of_app. by left.
    + exists device. split; [|done]. apply elem_of_app. right. left.
  - intros (d & [Hd|Hd%list_elem_of_singleton]%elem_of_app & Hs).
    + left. by exists d.
    + right. by subst.
Qed.

(** X4. The sensors that [DevicesList.get_sensors] resolves on devices with
    pairwise distinct ids are grouped, by [to_query], device by device: one
    group per device that has a matching sensor, in the order of the
    devices, holding the ids of that device's matching sensors in catalog
    order. A device without a matching sensor has no group. *)
Theorem to_query_of_resolved_sensors (devices : list Device)
    (sensor_ids : option (list string)) :
  NoDup (Device_id <$> devices) →
  to_query (DevicesList_get_sensors api_sensors devices sensor_ids)
  = omap (λ device,
            match Device_get_sensors api_sensors device sensor_ids with
            | [] => None
            | (_ :: _) as sensors =>
                Some (Device_id device, Sensor_id <$> sensors)
            end) devices.
Proof.
  induction devices as [|device devices IH] using rev_ind.
  { intros _. unfold DevicesList_get_sensors. by destruct (py_not _). }
  rewrite fmap_app, NoDup_app. intros (Hdevices & Hnew & _).
  rewrite DevicesList_get_sensors_snoc, omap_app.
  rewrite (to_query_app_group _ _ (Device_id device)).
  - rewrite IH by done. f_equal.
    cbn [omap list_omap]. by destruct (Device_get_sensors _ _ _).
  - apply Forall_forall. intros s Hs.
    by apply Device_get_sensors_elem_of in Hs as [-> _].
  - intros (s & (d & Hd & Hs)%DevicesList_get_sensors_elem_of & Hid)%to_query_keys.
    apply Device_get_sensors_elem_of in Hs as [Hsd _].
    rewrite Hsd in Hid. apply (Hnew (Device_id d)).
    + by apply list_elem_of_fmap_2.
    + rewrite Hid. rewrite fmap_cons. left.
Qed.

End CatalogToQuery.

(** ** The reshaping, for records of any length *)

Section ReshapeProperties.

Variable V : Type.

Lemma max_list_fits (first : SensorRecord V) (rest : list (SensorRecord V)) :
  max_list (len <$> first :: rest) = len first
  ↔ Forall (λ record, len record ≤ len first) rest.
Proof.
  rewrite fmap_cons. cbn [max_list max_list_with].
  fold (max_list (len <$> rest)).
  assert (max_list (len <$> rest) ≤ len first
          ↔ Forall (λ record, len record ≤ len first) rest) as <-.
  { induction rest as [|r rest IH]; [split; [constructor|simpl; lia]|].
    rewrite fmap_cons, Forall_cons, <- IH. simpl. lia. }
  unfold id. lia.
Qed.

Lemma lookup_filled_up (vs : list V) (n i : nat) :
  i < n → length vs ≤ n →
  mjoin (resize n None (Some <$> vs) !! i) = vs !! i.
Proof.
  intros Hi Hn. destruct (decide (i < length vs)) as [Hlt|Hge].
  - rewrite lookup_resize by (rewrite ?length_fmap; lia).
    rewrite list_lookup_fmap. by destruct (vs !! i).
  - rewrite lookup_resize_new by (rewrite ?length_fmap; lia).
    by rewrite lookup_ge_None_2 by lia.
Qed.

Lemma imap_bind_ext_lookup {A C} (f g : nat → A → list C) (l : list A) :
  (∀ i x, l !! i = Some x → f i x = g i x) →
  imap pair l ≫= (λ '(i, x), f i x) = imap pair l ≫= (λ '(i, x), g i x).
Proof.
  intros H.
  assert (∀ k : nat → nat,
    (∀ i x, l !! i = Some x → f (k i) x = g (k i) x) →
    imap (λ i x, (k i, x)) l ≫= (λ '(i, x), f i x)
    = imap (λ i x, (k i, x)) l ≫= (λ '(i, x), g i x)) as Hk.
  { clear H. induction l as [|x l IH]; intros k H; [done|].
    rewrite imap_cons, !bind_cons. f_equal.
    - by apply (H 0).
    - apply (IH (k ∘ S)). intros i y Hy. by apply (H (S i)). }
  by apply (Hk id).
Qed.

(** The frame of a sensor whose records fit the first one is its long rows,
    a value that a short record lacks being [None]. *)
Lemma sensor_frame_fits (device_id sensor_id : string)
    (sensor_data : list (SensorRecord V)) :
  sensor_data ≠ [] → fits_first_record sensor_data →
  sensor_frame device_id sensor_id sensor_data
  = Ok (long_rows device_id sensor_id sensor_data).
Proof.
  destruct sensor_data as [|first rest]; [done|]. intros _ Hfits.
  pose proof (proj2 (max_list_fits first rest) Hfits) as Hmax.
  assert (length (value_headers sensor_id (first :: rest))
          = length (values first)) as Hnames.
  { unfold value_headers, get_column_headers, range, len. simpl.
    destruct (decide _); [simpl; lia|]. simpl.
    rewrite length_fmap, length_seqZ. lia. }
  unfold sensor_frame.
  assert (get_column_headers sensor_id (first :: rest)
          = Ok ("datetime" :: value_headers sensor_id (first :: rest)))
    as ->.
  { unfold value_headers, get_column_headers. simpl. by destruct (decide _). }
  unfold mbind at 1, result_bind. unfold pd_DataFrame.
  cbv beta iota zeta. rewrite Hmax. cbn [length]. rewrite Hnames.
  change (S (length (values first))) with (len first).
  rewrite decide_True by done. unfold mbind, result_bind. f_equal.
  unfold melt_assign, long_rows. cbn [columns rows tail].
  apply imap_bind_ext_lookup. intros i name Hname.
  apply lookup_lt_Some in Hname. rewrite Hnames in Hname.
  rewrite list_fmap_bind. apply Forall_bind_ext.
  assert (Forall (λ record, len record ≤ len first) (first :: rest))
    as Hall by (by constructor).
  eapply Forall_impl; [exact Hall|]. intros record Hrecord. simpl.
  unfold len in Hrecord |- *. f_equal. f_equal.
  apply lookup_filled_up; lia.
Qed.

Lemma sensor_frame_unfit (device_id sensor_id : string)
    (first : SensorRecord V) (rest : list (SensorRecord V)) :
  ¬ fits_first_record (first :: rest) →
  sensor_frame device_id sensor_id (first :: rest)
  = Raise (ValueError (pretty (len first)
                       +:+ " columns passed, passed data had "
                       +:+ pretty (max_list (len <$> first :: rest))
                       +:+ " columns")).
Proof.
  intros Hunfit. unfold sensor_frame.
  assert (get_column_headers sensor_id (first :: rest)
          = Ok ("datetime" :: value_headers sensor_id (first :: rest)))
    as ->.
  { unfold value_headers, get_column_headers. simpl. by destruct (decide _). }
  assert (length (value_headers sensor_id (first :: rest))
          = length (values first)) as Hnames.
  { unfold value_headers, get_column_headers, range, len. simpl.
    destruct (decide _); [simpl; lia|]. simpl.
    rewrite length_fmap, length_seqZ. lia. }
  unfold mbind at 1, result_bind.
  assert (∀ headers,
    length headers = len first →
    pd_DataFrame (first :: rest) headers
    = Raise (ValueError (pretty (len first)
                         +:+ " columns passed, passed data had "
                         +:+ pretty (max_list (len <$> first :: rest))
                         +:+ " columns"))) as Hframe.
  { intros headers Hlen. unfold pd_DataFrame. cbv beta iota zeta.
    rewrite Hlen. rewrite decide_False; [done|].
    intros Hmax. apply Hunfit. by apply max_list_fits. }
  rewrite Hframe; [done|]. cbn [length]. by rewrite Hnames.
Qed.

Global Instance fits_first_record_dec (sensor_data : list (SensorRecord V)) :
  Decision (fits_first_record sensor_data).
Proof. destruct sensor_data; simpl; apply _. Defined.


Lemma frames_are_long_rows
    (entries : list (string * string * list (SensorRecord V))) :
  Forall (λ entry, entry.2 ≠ [] ∧ fits_first_record entry.2) entries →
  Forall2 (λ '(device_id, sensor_id, sensor_data) rows,
             sensor_frame device_id sensor_id sensor_data = Ok rows)
    entries
    ((λ '(device_id, sensor_id, sensor_data),
        long_rows device_id sensor_id sensor_data) <$> entries).
Proof.
  intros H. apply Forall2_fmap_r, Forall_Forall2_diag.
  eapply Forall_impl; [exact H|].
  intros [[d s] sd] [Hne Hfits]. by apply sensor_frame_fits.
Qed.

Lemma concat_fmap_bind {A B} (f : A → list B) (l : list A) :
  concat (f <$> l) = l ≫= f.
Proof. induction l as [|x l IH]; [done|]. by rewrite fmap_cons, bind_cons, <- IH. Qed.

(** The series that the reshaping returns, and when it returns one. *)
Lemma reshape_Ok_iff (data : Response V) (series : Series V) :
  reshape data = Ok series
  ↔ loop_through_sensors data ≠ []
    ∧ Forall (λ entry, fits_first_record entry.2) (loop_through_sensors data)
    ∧ series
      = sort_index (set_index (pd_to_datetime
          ('(device_id, sensor_id, sensor_data) ← loop_through_sensors data;
           long_rows device_id sensor_id sensor_data))).
Proof.
  assert (Forall (λ entry : string * string * list (SensorRecord V),
                    entry.2 ≠ []) (loop_through_sensors data)) as Hne.
  { apply Forall_forall.
    by intros [[d s] sd] [? _]%loop_through_sensors_elem_of. }
  split.
  - intros Hseries.
    destruct (reshape_outcome V data)
      as [[_ Hr]|[(msg & _ & Hr)|(Hsome & frames & Hframes & Hr)]];
      rewrite Hr in Hseries; [done..|].
    injection Hseries as <-.
    assert (Forall (λ entry, fits_first_record entry.2)
              (loop_through_sensors data)) as Hfits.
    { clear Hr Hsome.
      induction Hframes as [|[[d s] sd] rows ?? Hrows _ IH]; [constructor|].
      apply Forall_cons in Hne as [Hsd Hne].
      constructor; [|by apply IH].
      destruct (decide (fits_first_record sd)) as [|Hunfit]; [done|].
      destruct sd as [|first rest]; [done|].
      by rewrite (sensor_frame_unfit d s first rest Hunfit) in Hrows. }
    split_and!; [done..|]. do 3 f_equal.
    rewrite <- concat_fmap_bind. f_equal.
    assert (Forall2 (λ '(device_id, sensor_id, sensor_data) rows,
                       sensor_frame device_id sensor_id sensor_data = Ok rows)
              (loop_through_sensors data)
              ((λ '(device_id, sensor_id, sensor_data),
                  long_rows device_id sensor_id sensor_data)
                 <$> loop_through_sensors data)) as Hlong.
    { apply frames_are_long_rows. apply Forall_and. by split. }
    clear Hr Hne Hfits Hsome. revert Hlong.
    generalize ((λ '(device_id, sensor_id, sensor_data),
                   long_rows (V:=V) device_id sensor_id sensor_data)
                  <$> loop_through_sensors data).
    induction Hframes as [|[[d s] sd] rows ?? Hrows _ IH];
      intros long Hlong; inversion Hlong as [|???? Hrows' Hlong'];
      simplify_eq; [done|].
    f_equal; [congruence|by apply IH].
  - intros (Hsome & Hfits & ->).
    assert (Forall (λ entry : string * string * list (SensorRecord V),
                      entry.2 ≠ [] ∧ fits_first_record entry.2)
              (loop_through_sensors data)) as Hboth.
    { apply Forall_and. by split. }
    rewrite (reshape_frames V data _ Hsome (frames_are_long_rows _ Hboth)).
    by rewrite concat_fmap_bind.
Qed.






(** X8. An answer with records that carry nothing but a timestamp gives an
    empty series, not the no-data error: the sensors have records, so the
    concatenation has frames, but the frames have no value column. *)
Theorem records_without_values_give_empty_series (data : Response V) :
  ¬ Forall (λ device, Forall (λ sensor, sensor.2 = []) device.2) data →
  Forall (λ device,
            Forall (λ sensor, Forall (λ record, values record = []) sensor.2)
              device.2) data →
  reshape data = Ok [].
Proof.
  intros Hsome Hbare.
  assert (Forall (λ entry : string * string * list (SensorRecord V),
                    Forall (λ record, values record = []) entry.2)
                 (loop_through_sensors data)) as Hloop.
  { apply Forall_forall.
    intros [[d s] sd] (_ & dd & Hd & Hs)%loop_through_sensors_elem_of.
    rewrite Forall_forall in Hbare. specialize (Hbare _ Hd).
    rewrite Forall_forall in Hbare. apply (Hbare _ Hs). }
  apply reshape_Ok_iff. split_and!.
  - by rewrite loop_through_sensors_nil.
  - eapply Forall_impl; [exact Hloop|]. intros [[d s] [|first rest]] H;
      [done|]. simpl in *. apply Forall_cons in H as [Hfirst Hrest].
    eapply Forall_impl; [exact Hrest|]. intros r Hr. unfold len.
    by rewrite Hr, Hfirst.
  - assert ((loop_through_sensors data
             ≫= λ '(device_id, sensor_id, sensor_data),
                  long_rows device_id sensor_id sensor_data) = []) as ->;
      [|done].
    induction Hloop as [|[[d s] sd] l Hsd _ IH]; [done|].
    rewrite bind_cons, IH, app_nil_r. simpl in Hsd.
    destruct sd as [|first rest]; [done|].
    apply Forall_cons in Hsd as [Hfirst _].
    unfold long_rows, value_headers, get_column_headers, range, len. simpl.
    by rewrite Hfirst.
Qed.

Lemma index_le_antisym (a b : Index) : index_le a b → index_le b a → a = b.
Proof.
  destruct a as [[d1 s1] [t1]], b as [[d2 s2] [t2]]. unfold index_le. simpl.
  intros [[H12 Hn12]|[-> H12]] [[H21 Hn21]|[Heq H21]]; try done.
  - by subst.
  - destruct H12 as [[H12 Hn12]|[-> H12]], H21 as [[H21 Hn21]|[Heq' H21]];
      try done.
    + by subst.
    + do 2 f_equal. lia.
Qed.

Lemma NoDup_fst_elem_of {A B} (l : list (A * B)) (x y : A * B) :
  NoDup l.*1 → x ∈ l → y ∈ l → x.1 = y.1 → x = y.
Proof.
  induction l as [|z l IH]; [by intros _ ?%not_elem_of_nil|].
  rewrite fmap_cons, NoDup_cons. intros [Hz Hl].
  intros [->|Hx]%elem_of_cons [->|Hy]%elem_of_cons Hxy; [done| | |by apply IH].
  - destruct Hz. rewrite Hxy. by apply list_elem_of_fmap_2.
  - destruct Hz. rewrite <- Hxy. by apply list_elem_of_fmap_2.
Qed.

(** X9. The order in which the answer lists its devices and sensors does
    not matter: when an answer gives a series and reports no timestamp
    twice under a sensor column, every answer with the same (device,
    sensor, records) entries in another order gives the same series. *)
Theorem reshape_is_independent_of_answer_order (data data' : Response V)
    (series : Series V) :
  loop_through_sensors data ≡ₚ loop_through_sensors data' →
  (∀ device_id column, NoDup (column_timestamps data device_id column)) →
  reshape data = Ok series →
  reshape data' = Ok series.
Proof.
  intros Hperm Hunique Hseries.
  pose proof (reshape_index_NoDup V data series Hseries Hunique) as Hindex.
  apply reshape_Ok_iff in Hseries as (Hsome & Hfits & Hseries).
  apply reshape_Ok_iff. split_and!.
  - intros Hnil. rewrite Hnil in Hperm. by apply Permutation_nil_r in Hperm.
  - by rewrite <- Hperm.
  - rewrite Hseries.
    set (entries l := set_index (pd_to_datetime
           (l ≫= λ '(device_id, sensor_id, sensor_data),
                  long_rows (V:=V) device_id sensor_id sensor_data))).
    assert (entries (loop_through_sensors data)
            ≡ₚ entries (loop_through_sensors data')) as Hentries.
    { unfold entries, set_index, pd_to_datetime. by rewrite Hperm. }
    fold (entries (loop_through_sensors data)) in Hseries |- *.
    fold (entries (loop_through_sensors data')).
    assert (Transitive (λ a b : Index * option V, index_le a.1 b.1)).
    { intros a b c ??. by etrans. }
    apply (StronglySorted_unique_strong
             (λ a b : Index * option V, index_le a.1 b.1)).
    + intros x1 x2 Hx1 Hx2 H12 H21.
      apply (NoDup_fst_elem_of series); [done|by rewrite Hseries| |].
      * rewrite Hseries, sort_index_Permutation, Hentries.
        by rewrite <- sort_index_Permutation.
      * by apply index_le_antisym.
    + apply Sorted_StronglySorted; [done|]. apply sort_index_Sorted.
    + apply Sorted_StronglySorted; [done|]. apply sort_index_Sorted.
    + by rewrite !sort_index_Permutation.
Qed.

End ReshapeProperties.

(** ** [get_data] and the clients of the sensors *)

Lemma to_query_same_ids (self self' : list Sensor) :
  Forall2 (λ a b, Sensor_id a = Sensor_id b
                  ∧ Device_id (Sensor_device a) = Device_id (Sensor_device b))
    self self' →
  to_query self = to_query self'.
Proof.
  intros H. unfold to_query. generalize (@nil (string * list string)).
  induction H as [|a b self self' [Hid Hdevice] _ IH]; intros acc; [done|].
  cbn [foldl]. by rewrite Hid, Hdevice, IH.
Qed.

(** X10. [get_data] takes the client from the first sensor and from no
    other: replacing the other sensors by sensors with the same sensor ids
    and device ids, whatever their clients and parameters, changes neither
    the request nor the outcome. Sensors of another account are asked for
    through the account of the first sensor. *)
Theorem get_data_uses_the_first_client (V : Type)
    (transport : Request → result (Response V)) (Date : Type)
    (to_milliseconds : Date → result Z) (sensor : Sensor)
    (rest rest' : list Sensor) (from_date to_date : Date)
    (log : list Request) :
  Forall2 (λ a b, Sensor_id a = Sensor_id b
                  ∧ Device_id (Sensor_device a) = Device_id (Sensor_device b))
    rest rest' →
  SensorList_get_data V transport Date to_milliseconds (sensor :: rest)
    from_date to_date log
  = SensorList_get_data V transport Date to_milliseconds (sensor :: rest')
      from_date to_date log.
Proof.
  intros Hrest. unfold SensorList_get_data, query.
  by rewrite (to_query_same_ids (sensor :: rest) (sensor :: rest'))
    by (by constructor).
Qed.

(** ** The catalog requests *)

(** The request of a catalog listing: a GET with the credentials only. *)
Lemma Client_request_json_no_params {J} (transport : Request → result J)
    (self : Client) (path : string) (log : list Request) :
  Client_request_json transport self path [] log
  = (transport
       {| req_method := "get";
          req_url := endpoint self +:+ "/" +:+ client_id self +:+ "/" +:+ path;
          req_params := [("app_id", QStr (app_id self));
                         ("access_token", QStr (access_token self))] |},
     log ++ [ {| req_method := "get";
                 req_url := endpoint self +:+ "/" +:+ client_id self
                            +:+ "/" +:+ path;
                 req_params := [("app_id", QStr (app_id self));
                                ("access_token", QStr (access_token self))]
              |} ]).
Proof. reflexivity. Qed.

Lemma cached_property_empty {A} (body : M A) (log : list Request) :
  cached_property body None log
  = match body log with
    | (Ok value, log') => (Ok value, Some value, log')
    | (Raise e, log') => (Raise e, None, log')
    end.
Proof. reflexivity. Qed.

Lemma Client_devices_request_eq (transport : Request → result (list Params))
    (self : Client) (log : list Request) :
  Client_devices_request transport self log
  = ((λ answer, Client_devices (λ _, answer) self)
       <$> transport
             {| req_method := "get";
                req_url := endpoint self +:+ "/" +:+ client_id self
                           +:+ "/" +:+ "devices";
                req_params := [("app_id", QStr (app_id self));
                               ("access_token", QStr (access_token self))] |},
     log ++ [ {| req_method := "get";
                 req_url := endpoint self +:+ "/" +:+ client_id self
                            +:+ "/" +:+ "devices";
                 req_params := [("app_id", QStr (app_id self));
                                ("access_token", QStr (access_token self))]
              |} ]).
Proof.
  unfold Client_devices_request, mbind, M_bind.
  rewrite Client_request_json_no_params. by destruct (transport _).
Qed.

(** X11. [Client.devices] is fetched once. The first access sends one GET
    of [endpoint/client_id/devices]; when it is answered, the devices are
    those of the answer in its order, each bound to the client, and they
    are kept: the next access returns the same devices and sends nothing.
    When the first access raises, nothing is kept and the next access sends
    the request again. *)
Theorem Client_devices_is_fetched_once
    (transport : Request → result (list Params)) (self : Client)
    (log : list Request) :
  let first := cached_property (Client_devices_request transport self)
                 None log in
  let second := cached_property (Client_devices_request transport self)
                  first.1.2 first.2 in
  ∃ sent,
    req_url sent = endpoint self +:+ "/" +:+ client_id self +:+ "/devices"
    ∧ first.2 = log ++ [sent]
    ∧ match transport sent with
      | Ok answer =>
          first.1.1 = Ok (Client_devices (λ _, answer) self)
          ∧ first.1.2 = Some (Client_devices (λ _, answer) self)
          ∧ second = first
      | Raise e =>
          first.1.1 = Raise e ∧ first.1.2 = None
          ∧ second.2 = log ++ [sent; sent]
      end.
Proof.
  intros first second.
  set (sent := {| req_method := "get";
                  req_url := endpoint self +:+ "/" +:+ client_id self
                             +:+ "/" +:+ "devices";
                  req_params :=
                    [("app_id", QStr (app_id self));
                     ("access_token", QStr (access_token self))] |}).
  exists sent.
  assert (first
          = match transport sent with
            | Ok answer => (Ok (Client_devices (λ _, answer) self),
                            Some (Client_devices (λ _, answer) self),
                            log ++ [sent])
            | Raise e => (Raise e, None, log ++ [sent])
            end) as Hfirst.
  { subst first. rewrite cached_property_empty, Client_devices_request_eq.
    fold sent. by destruct (transport sent). }
  subst second. clearbody first. subst first.
  split; [reflexivity|]. destruct (transport sent) as [answer|e] eqn:Hsent.
  - done.
  - cbn [fst snd]. split_and!; [done..|].
    rewrite cached_property_empty, Client_devices_request_eq; fold sent.
    rewrite Hsent. cbn. by rewrite <- (assoc (++)).
Qed.

(** X12. [Device.sensors] sends one GET of
    [endpoint/client_id/devices/{device id}] through the device's client.
    An exception of the transport is raised as it is; an answer without an
    entry for the device id raises a [KeyError] carrying that id; otherwise
    the sensors are the values of the device's entry in their order (the
    keys are dropped, entries of other devices are ignored), each bound to
    the device. *)
Theorem Device_sensors_request_outcome
    (transport : Request → result (list (string * list (string * Params))))
    (self : Device) (log : list Request) :
  ∃ sent,
    req_url sent
    = endpoint (Device_client self) +:+ "/" +:+ client_id (Device_client self)
      +:+ "/devices/" +:+ Device_id self
    ∧ (Device_sensors_request transport self log).2 = log ++ [sent]
    ∧ (Device_sensors_request transport self log).1
      = match transport sent with
        | Raise e => Raise e
        | Ok answer =>
            match dict_get (Device_id self) answer with
            | None => Raise (KeyError (Device_id self))
            | Some entry => Ok (Device_sensors (λ _, entry.*2) self)
            end
        end.
Proof.
  unfold Device_sensors_request, mbind, M_bind.
  rewrite Client_request_json_no_params.
  exists {| req_method := "get";
            req_url := endpoint (Device_client self) +:+ "/"
                       +:+ client_id (Device_client self) +:+ "/"
                       +:+ ("devices/" +:+ Device_id self);
            req_params :=
              [("app_id", QStr (app_id (Device_client self)));
               ("access_token", QStr (access_token (Device_client self)))]
         |}.
  split_and!.
  - reflexivity.
  - destruct (transport _) as [answer|e]; [|done].
    unfold lift. by destruct (dict_get _ answer).
  - destruct (transport _) as [answer|e]; [|done].
    unfold lift. by destruct (dict_get _ answer).
Qed.

(** ** The accessors, composed *)

Section Resolution.

Variable api_devices : Client → list Params.
Variable api_sensors : Device → list Params.

Lemma py_in_same_ids (ids ids' : list string) :
  (∀ id, id ∈ ids ↔ id ∈ ids') →
  py_not (Some ids) = py_not (Some ids')
  ∧ ∀ id, py_in id (Some ids) ↔ py_in id (Some ids').
Proof.
  intros Hsame. split; [|done].
  destruct ids as [|x ids], ids' as [|y ids']; try done.
  - assert (y ∈ []) as ?%not_elem_of_nil by (apply Hsame; left). done.
  - assert (x ∈ []) as ?%not_elem_of_nil by (apply Hsame; left). done.
Qed.

(** X13. The batch accessors use the list of ids as a set: two lists with
    the same members, in whatever order and however often repeated, give
    the same devices from [Client.get_devices], the same sensors from
    [Device.get_sensors] and the same sensors from
    [DevicesList.get_sensors]. *)
Theorem batch_accessors_take_ids_as_a_set (ids ids' : list string)
    (c : Client) (d : Device) (devices : list Device) :
  (∀ id, id ∈ ids ↔ id ∈ ids') →
  Client_get_devices api_devices c (Some ids)
    = Client_get_devices api_devices c (Some ids')
  ∧ Device_get_sensors api_sensors d (Some ids)
    = Device_get_sensors api_sensors d (Some ids')
  ∧ DevicesList_get_sensors api_sensors devices (Some ids)
    = DevicesList_get_sensors api_sensors devices (Some ids').
Proof.
  intros [Hnot Hin]%py_in_same_ids.
  assert (∀ device, Device_get_sensors api_sensors device (Some ids)
                    = Device_get_sensors api_sensors device (Some ids'))
    as Hsensors.
  { intros device. unfold Device_get_sensors. rewrite Hnot.
    destruct (py_not (Some ids')); [done|].
    apply list_filter_iff. intros s. apply Hin. }
  split_and!.
  - unfold Client_get_devices. rewrite Hnot.
    destruct (py_not (Some ids')); [done|].
    apply list_filter_iff. intros x. apply Hin.
  - apply Hsensors.
  - unfold DevicesList_get_sensors. rewrite Hnot.
    destruct (py_not (Some ids')); [done|]. f_equal.
    apply list_fmap_ext. intros _ device _. apply Hsensors.
Qed.

Lemma Client_get_devices_elem_of (c : Client)
    (device_ids : option (list string)) (device : Device) :
  device ∈ Client_get_devices api_devices c device_ids →
  Device_client device = c ∧ device ∈ Client_devices api_devices c.
Proof.
  assert (device ∈ Client_devices api_devices c → Device_client device = c)
    as Hclient.
  { intros (p & -> & _)%list_elem_of_fmap. done. }
  unfold Client_get_devices. destruct (py_not device_ids).
  - intros Hin. split; [by apply Hclient|done].
  - intros [_ Hin]%list_elem_of_filter. split; [by apply Hclient|done].
Qed.

(** X14. What the accessors resolve stays bound to where it was resolved:
    a sensor that [DevicesList.get_sensors] returns on the devices that
    [Client.get_devices] returned for a client is a sensor of the catalog
    of its own device, its device is a device of the client's catalog, and
    the client of that device is this client; when sensor ids were given,
    its id is among them. *)
Theorem resolved_sensors_belong_to_the_client (c : Client)
    (device_ids sensor_ids : option (list string)) (sensor : Sensor) :
  sensor ∈ DevicesList_get_sensors api_sensors
             (Client_get_devices api_devices c device_ids) sensor_ids →
  Device_client (Sensor_device sensor) = c
  ∧ Sensor_device sensor ∈ Client_devices api_devices c
  ∧ sensor ∈ Device_sensors api_sensors (Sensor_device sensor)
  ∧ (py_not sensor_ids = false → py_in (Sensor_id sensor) sensor_ids).
Proof.
  intros (device & Hdevice & Hsensor)%DevicesList_get_sensors_elem_of.
  apply Client_get_devices_elem_of in Hdevice as [Hclient Hdevice].
  apply Device_get_sensors_elem_of in Hsensor as (-> & Hsensor & Hid).
  done.
Qed.

(** X15. The whole way from a client to the request: [get_data] on the
    sensors resolved through a client's devices, when there are any and the
    dates convert, sends exactly one request, and sends it with that
    client's endpoint, client id and credentials, whichever devices and
    sensors were selected; its outcome is the reshaping of the answer or
    the transport's exception. *)
Theorem get_data_of_resolved_sensors (V : Type)
    (transport : Request → result (Response V)) (Date : Type)
    (to_milliseconds : Date → result Z) (c : Client)
    (device_ids sensor_ids : option (list string))
    (from_date to_date : Date) (from_ms to_ms : Z) (log : list Request) :
  let self := DevicesList_get_sensors api_sensors
                (Client_get_devices api_devices c device_ids) sensor_ids in
  self ≠ [] →
  to_milliseconds from_date = Ok from_ms →
  to_milliseconds to_date = Ok to_ms →
  SensorList_get_data V transport Date to_milliseconds self
    from_date to_date log
  = (transport (data_request self c from_ms to_ms) ≫= reshape,
     log ++ [data_request self c from_ms to_ms]).
Proof.
  intros self Hsome Hfrom Hto.
  destruct self as [|sensor rest] eqn:Hself; [done|].
  assert (Device_client (Sensor_device sensor) = c) as <-.
  { assert (sensor ∈ self) as Hin by (rewrite Hself; left).
    apply DevicesList_get_sensors_elem_of in Hin as (d & Hd & Hs).
    apply Client_get_devices_elem_of in Hd as [Hclient _].
    by apply Device_get_sensors_elem_of in Hs as [-> _]. }
  by apply get_data_nonempty.
Qed.

End Resolution.

(** ** The further properties on the example account *)

Lemma to_query_of_resolved_sensors_witness :
  to_query (DevicesList_get_sensors example_api_sensors
              (Client_devices example_api_devices example_client)
              (Some ["s3"; "s1"]))
  = [("A", ["s1"]); ("B", ["s3"])].
Proof.
  rewrite (to_query_of_resolved_sensors example_api_sensors
             (Client_devices example_api_devices example_client)
             (Some ["s3"; "s1"])).
  - reflexivity.
  - apply (bool_decide_unpack _). reflexivity.
Defined.



Lemma records_without_values_give_empty_series_witness :
  reshape example_bare_answer = Ok [].
Proof.
  apply (records_without_values_give_empty_series Z example_bare_answer).
  - intros Hempty. apply Forall_cons in Hempty as [Hdevice _].
    apply Forall_cons in Hdevice as [Hsensor _]. discriminate Hsensor.
  - repeat constructor.
Defined.

Lemma example_answer_two_timestamps_unique (device_id column : string) :
  NoDup (column_timestamps example_answer_two device_id column).
Proof.
  unfold column_timestamps.
  change (loop_through_sensors example_answer_two)
    with [("A", "s1", example_records);
          ("A", "s2", [ {| timestamp_ms := 1000; values := [7%Z] |} ])].
  rewrite !bind_cons. change ([] ≫= _) with (@nil Z).
  destruct (decide ("A" = device_id)); [|constructor].
  change (value_headers "s1" example_records)
    with ["s1_0"; "s1_1"; "s1_2"].
  change (value_headers "s2" [ {| timestamp_ms := 1000;
                                  values := [7%Z] |} ])
    with ["s2"].
  rewrite !bind_cons. change ([] ≫= _) with (@nil Z).
  assert (NoDup (timestamp_ms <$> example_records)) as Hrecords.
  { apply (bool_decide_unpack _). reflexivity. }
  repeat case_decide; simplify_eq; rewrite ?app_nil_r; simpl;
    apply (bool_decide_unpack _); reflexivity.
Defined.

Lemma reshape_is_independent_of_answer_order_witness :
  reshape example_answer_two_swapped = reshape example_answer_two.
Proof.
  apply (reshape_is_independent_of_answer_order Z example_answer_two
           example_answer_two_swapped).
  - apply Permutation_swap.
  - apply example_answer_two_timestamps_unique.
  - reflexivity.
Defined.

Lemma get_data_uses_the_first_client_witness :
  SensorList_get_data Z example_transport Z Ok
    [example_sensor "A" "s1"; example_sensor "A" "s2"] 0%Z 1%Z []
  = SensorList_get_data Z example_transport Z Ok
      [example_sensor "A" "s1"; example_foreign_sensor] 0%Z 1%Z [].
Proof.
  apply (get_data_uses_the_first_client Z example_transport Z Ok
           (example_sensor "A" "s1") [example_sensor "A" "s2"]
           [example_foreign_sensor]).
  repeat constructor.
Defined.

Lemma batch_accessors_take_ids_as_a_set_witness :
  Client_get_devices example_api_devices example_client (Some ["B"; "A"])
    = Client_get_devices example_api_devices example_client
        (Some ["A"; "B"; "A"])
  ∧ Device_get_sensors example_api_sensors
      {| Device_params := {| params_id := "A"; params_other := [] |};
         Device_client := example_client |} (Some ["B"; "A"])
    = Device_get_sensors example_api_sensors
        {| Device_params := {| params_id := "A"; params_other := [] |};
           Device_client := example_client |} (Some ["A"; "B"; "A"])
  ∧ DevicesList_get_sensors example_api_sensors
      (Client_devices example_api_devices example_client) (Some ["B"; "A"])
    = DevicesList_get_sensors example_api_sensors
        (Client_devices example_api_devices example_client)
        (Some ["A"; "B"; "A"]).
Proof.
  apply (batch_accessors_take_ids_as_a_set example_api_devices
           example_api_sensors ["B"; "A"] ["A"; "B"; "A"]).
  intros id. rewrite !elem_of_cons. tauto.
Defined.

Lemma resolved_sensors_belong_to_the_client_witness :
  Device_client (Sensor_device (example_sensor "B" "s3")) = example_client
  ∧ Sensor_device (example_sensor "B" "s3")
    ∈ Client_devices example_api_devices example_client
  ∧ example_sensor "B" "s3"
    ∈ Device_sensors example_api_sensors
        (Sensor_device (example_sensor "B" "s3"))
  ∧ (py_not (Some ["s3"]) = false
     → py_in (Sensor_id (example_sensor "B" "s3")) (Some ["s3"])).
Proof.
  apply (resolved_sensors_belong_to_the_client example_api_devices
           example_api_sensors example_client None (Some ["s3"])).
  change (example_sensor "B" "s3" ∈ [example_sensor "B" "s3"]). left.
Defined.

Lemma get_data_of_resolved_sensors_witness :
  SensorList_get_data Z example_transport Z Ok
    (DevicesList_get_sensors example_api_sensors
       (Client_get_devices example_api_devices example_client (Some ["A"]))
       None) 0%Z 1%Z []
  = (example_transport
       (data_request
          (DevicesList_get_sensors example_api_sensors
             (Client_get_devices example_api_devices example_client
                (Some ["A"])) None)
          example_client 0 1) ≫= reshape,
     [] ++ [data_request
              (DevicesList_get_sensors example_api_sensors
                 (Client_get_devices example_api_devices example_client
                    (Some ["A"])) None)
              example_client 0 1]).
Proof.
  apply (get_data_of_resolved_sensors example_api_devices
           example_api_sensors Z example_transport Z Ok example_client
           (Some ["A"]) None 0%Z 1%Z 0%Z 1%Z []).
  - discriminate.
  - reflexivity.
  - reflexivity.
Defined.
